(** * Dataset comparison pipeline: embedding, matching, diff summaries

    A shallow embedding of the comparison script (the entry module of the
    repository together with [types.ts]) and the properties of its three
    stages: rate-limited batch generation of embeddings, nearest-neighbour
    matching by cosine similarity, and rate-limited batch generation of
    diff summaries, followed by the assembly of the report.

    Conventions.
    - A JavaScript [number] is an IEEE 754 binary64 value: [float] with the
      kernel's primitive operations ([<?] for [<], [=?] for [===]).
    - A synchronous computation that may throw yields a [Completion].
    - An [async] function is a function of the [World]: it returns the new
      world and the completion its promise settles to, or [None] when the
      promise never settles.
    - Remote services, the file system and the clock are fields of [Env].
    - Console output is not part of the model; no result depends on it. *)

From Stdlib Require Import ZArith Floats Lia Ascii String.
From stdpp Require Import base list strings.

Set Warnings "-inexact-float,-ambiguous-paths".

Local Open Scope string_scope.
Local Open Scope list_scope.

(* ================================================================== *)
(** * Data model ([types.ts]) *)

Module DatasetEntry.
Record t := make {
  id : Z;
  name : string;
  title : string;
  summary : string;
  skills : list string
}.
End DatasetEntry.

(** [interface DatasetEntryWithEmbedding extends DatasetEntry]: the fields
    of the entry and one more. *)
Module DatasetEntryWithEmbedding.
Record t := make {
  entry : DatasetEntry.t;
  embedding : list float
}.
End DatasetEntryWithEmbedding.

(** An object that is typed [DatasetEntry] where it is used.  The
    interfaces of TypeScript are structural: such an object has the five
    fields of a [DatasetEntry] and may have more.  The one property the
    script ever adds to an entry is [embedding], so the object is either
    one with exactly the five fields, or an entry with its embedding that
    is used as a [DatasetEntry]. *)
Inductive EntryObject :=
| Plain (e : DatasetEntry.t)
| Embedded (e : DatasetEntryWithEmbedding.t).

(** The five fields of the object, as code that takes a [DatasetEntry]
    reads them. *)
Definition fieldsOf (o : EntryObject) : DatasetEntry.t :=
  match o with
  | Plain e => e
  | Embedded e => DatasetEntryWithEmbedding.entry e
  end.

(** [o.embedding], when the object has the property. *)
Definition embeddingOf (o : EntryObject) : option (list float) :=
  match o with
  | Plain _ => None
  | Embedded e => Some (DatasetEntryWithEmbedding.embedding e)
  end.

Coercion Plain : DatasetEntry.t >-> EntryObject.
Coercion fieldsOf : EntryObject >-> DatasetEntry.t.

Module ComparisonResult.
Record t := make {
  entryA : EntryObject;           (* entryA: DatasetEntry *)
  match_ : EntryObject;           (* match: DatasetEntry *)
  similarityScore : float;
  diffSummary : option string   (* string | null *)
}.
End ComparisonResult.

Module ComparisonReport.
Record t := make {
  comparisonDate : string;
  totalComparisons : nat;
  results : list ComparisonResult.t
}.
End ComparisonReport.

Module MatchResult.
Record t := make {
  match_ : DatasetEntryWithEmbedding.t;
  score : float
}.
End MatchResult.

(** The element type of the argument of
    [generateDiffSummariesWithBatching] (an anonymous object type in the
    source). *)
Module Comparison.
Record t := make {
  entryA : EntryObject;           (* entryA: DatasetEntry *)
  match_ : EntryObject;           (* match: DatasetEntry *)
  similarityScore : float
}.
End Comparison.

(* ================================================================== *)
(** * Completions, the world, asynchronous computations *)

Inductive JsError :=
| Error (message : string)        (* new Error(message) *)
| TypeError                       (* a property read on undefined *)
| ServiceError (detail : string). (* whatever a remote call rejects with *)

(** How an evaluation ends: with a value, or by throwing.  For a promise:
    fulfilled with a value, or rejected with a reason. *)
Inductive Completion (A : Type) :=
| Return (v : A)
| Throw (e : JsError).
Arguments Return {A} v.
Arguments Throw {A} e.

Module EmbeddingRequest.
Record t := make { model : string; input : string }.
End EmbeddingRequest.

Module ChatRequest.
Record t := make {
  model : string;
  messages : list (string * string);   (* role, content *)
  max_tokens : Z;
  temperature : float
}.
End ChatRequest.

(** [response.data]: one object with an [embedding] per input. *)
Definition EmbeddingResponse := list (list float).
(** [response.choices]: the [message.content] of each choice,
    [string | null]. *)
Definition ChatResponse := list (option string).

(** What the run leaves behind: the requests sent to the two remote
    services in the order they were issued, the timers awaited between
    batches, and the report file. *)
Record World := mkWorld {
  embeddingRequests : list EmbeddingRequest.t;
  chatRequests : list ChatRequest.t;
  timers : list Z;
  reportFile : option ComparisonReport.t
}.

Definition emptyWorld : World := mkWorld [] [] [] None.

(** The module-level bindings of the script and its collaborators.
    [BATCH_SIZE] and [RATE_LIMIT_DELAY] are the constants 10 and 1000 in
    the source (see [shipped]); the stages are written over the record so
    that the batching properties can be stated for every batch size. *)
Record Env := mkEnv {
  BATCH_SIZE : nat;
  RATE_LIMIT_DELAY : Z;
  (* import cosineSimilarity from 'cos-similarity' *)
  cosineSimilarity : list float -> list float -> float;
  (* openai.embeddings.create, openai.chat.completions.create *)
  embeddings_create : EmbeddingRequest.t -> Completion EmbeddingResponse;
  chat_completions_create : ChatRequest.t -> Completion ChatResponse;
  (* JSON.parse(await readFile('datasetA.json', 'utf8')), and datasetB *)
  read_datasetA : Completion (list DatasetEntry.t);
  read_datasetB : Completion (list DatasetEntry.t);
  (* new Date().toISOString() *)
  Date_toISOString : string
}.

(** An effectful step: the new world and a result, or [None] when the
    step never finishes. *)
Definition Eff (A : Type) : Type := World -> option (World * A).

Definition Async (A : Type) : Type := Eff (Completion A).

Definition andThen {A B} (m : Eff A) (k : A -> Eff B) : Eff B :=
  fun w =>
    match m w with
    | None => None
    | Some (w', v) => k v w'
    end.

Definition ret {A} (v : A) : Async A := fun w => Some (w, Return v).
Definition throw {A} (e : JsError) : Async A := fun w => Some (w, Throw e).
Definition settled {A} (c : Completion A) : Async A := fun w => Some (w, c).

(** [await]: continue with the value, or leave with the rejection. *)
Definition bind {A B} (m : Async A) (k : A -> Async B) : Async B :=
  fun w =>
    match m w with
    | None => None
    | Some (w', Return v) => k v w'
    | Some (w', Throw e) => Some (w', Throw e)
    end.

(** [try { m } catch (error) { h error }] *)
Definition try_catch {A} (m : Async A) (h : JsError -> Async A) : Async A :=
  fun w =>
    match m w with
    | None => None
    | Some (w', Return v) => Some (w', Return v)
    | Some (w', Throw e) => h e w'
    end.

Notation "x <- m ;; k" := (bind m (fun x => k))
  (at level 100, m at next level, right associativity).

(** The same for synchronous code. *)
Definition bindC {A B} (c : Completion A) (k : A -> Completion B)
  : Completion B :=
  match c with
  | Return v => k v
  | Throw e => Throw e
  end.

Fixpoint mapC {A B} (f : A -> Completion B) (l : list A)
  : Completion (list B) :=
  match l with
  | [] => Return []
  | x :: l' =>
      bindC (f x) (fun y => bindC (mapC f l') (fun ys => Return (y :: ys)))
  end.

(** ** Effects *)

Definition logEmbedding (req : EmbeddingRequest.t) (w : World) : World :=
  mkWorld (embeddingRequests w ++ [req]) (chatRequests w) (timers w)
          (reportFile w).

Definition logChat (req : ChatRequest.t) (w : World) : World :=
  mkWorld (embeddingRequests w) (chatRequests w ++ [req]) (timers w)
          (reportFile w).

Definition pause (ms : Z) (w : World) : World :=
  mkWorld (embeddingRequests w) (chatRequests w) (timers w ++ [ms])
          (reportFile w).

Definition saveReport (report : ComparisonReport.t) (w : World) : World :=
  mkWorld (embeddingRequests w) (chatRequests w) (timers w) (Some report).

Definition call_embeddings (env : Env) (req : EmbeddingRequest.t)
  : Async EmbeddingResponse :=
  fun w => Some (logEmbedding req w, embeddings_create env req).

Definition call_chat (env : Env) (req : ChatRequest.t) : Async ChatResponse :=
  fun w => Some (logChat req w, chat_completions_create env req).

(** [await new Promise((resolve) => setTimeout(resolve, ms))] *)
Definition setTimeout (ms : Z) : Async unit :=
  fun w => Some (pause ms w, Return tt).

(** [await writeFile('comparison_report.json', JSON.stringify(report))];
    the file is kept as the report itself. *)
Definition writeFile (report : ComparisonReport.t) : Async unit :=
  fun w => Some (saveReport report w, Return tt).

(** ** [Promise.all]

    The promises of a batch have been created, in order; [sched] lists
    the indices of the promises in the order in which they settle.  A
    fulfilled promise stores its value in the slot of its own index; the
    first rejection rejects the whole; when the schedule is exhausted the
    result is the array of the slots if all of them are filled, and the
    combined promise is still pending otherwise. *)

Fixpoint collect {A} (slots : list (option A)) : option (list A) :=
  match slots with
  | [] => Some []
  | Some v :: slots' =>
      match collect slots' with
      | Some vs => Some (v :: vs)
      | None => None
      end
  | None :: _ => None
  end.

Fixpoint settleAll {A} (sched : list nat) (promises : list (Completion A))
    (slots : list (option A)) : option (Completion (list A)) :=
  match sched with
  | [] =>
      match collect slots with
      | Some vs => Some (Return vs)
      | None => None
      end
  | k :: sched' =>
      match promises !! k with
      | Some (Return v) => settleAll sched' promises (<[k := Some v]> slots)
      | Some (Throw e) => Some (Throw e)
      | None => settleAll sched' promises slots
      end
  end.

Definition Promise_all {A} (sched : list nat) (promises : list (Completion A))
  : Async (list A) :=
  fun w =>
    match settleAll sched promises (replicate (length promises) None) with
    | Some c => Some (w, c)
    | None => None
    end.

(** [batch.map(async (x) => ...)]: every call runs up to its first
    [await], so the requests are issued in the order of the batch; what
    is kept of each call is the completion its promise will settle to. *)
Fixpoint launch {A B} (task : A -> Async B) (batch : list A)
  : Eff (list (Completion B)) :=
  match batch with
  | [] => fun w => Some (w, [])
  | x :: batch' =>
      andThen (task x) (fun c =>
      andThen (launch task batch') (fun cs w => Some (w, c :: cs)))
  end.

(* ================================================================== *)
(** * The script *)

Definition nl : string := String (ascii_of_nat 10) EmptyString.
Definition dquote : string := String (ascii_of_nat 34) EmptyString.

(** [Array.prototype.join] on an array of strings. *)
Definition join (sep : string) (l : list string) : string := String.concat sep l.

(** [Array.prototype.slice(i, j)] for [0 <= i <= j]. *)
Definition slice {A} (i j : nat) (l : list A) : list A := take (j - i) (drop i l).

(** [String.prototype.trim] removes white space and line terminators
    from both ends.  A string is the sequence of its UTF-8 bytes here;
    the code points removed are U+0009 to U+000D and U+0020 (one byte),
    U+00A0 (two bytes), and U+1680, U+2000 to U+200A, U+2028, U+2029,
    U+202F, U+205F, U+3000 and U+FEFF (three bytes). *)
Definition isWhiteSpace (c : ascii) : bool :=
  let n := nat_of_ascii c in
  (Nat.leb 9 n && Nat.leb n 13) || Nat.eqb n 32.

Definition isWhiteSpace2 (c1 c2 : ascii) : bool :=
  Nat.eqb (nat_of_ascii c1) 194 && Nat.eqb (nat_of_ascii c2) 160.

Definition isWhiteSpace3 (c1 c2 c3 : ascii) : bool :=
  let n1 := nat_of_ascii c1 in
  let n2 := nat_of_ascii c2 in
  let n3 := nat_of_ascii c3 in
  (Nat.eqb n1 225 && Nat.eqb n2 154 && Nat.eqb n3 128) ||
  (Nat.eqb n1 226 && Nat.eqb n2 128 &&
   ((Nat.leb 128 n3 && Nat.leb n3 138) || Nat.eqb n3 168 || Nat.eqb n3 169
    || Nat.eqb n3 175)) ||
  (Nat.eqb n1 226 && Nat.eqb n2 129 && Nat.eqb n3 159) ||
  (Nat.eqb n1 227 && Nat.eqb n2 128 && Nat.eqb n3 128) ||
  (Nat.eqb n1 239 && Nat.eqb n2 187 && Nat.eqb n3 191).

Fixpoint trimStart (s : string) : string :=
  match s with
  | EmptyString => EmptyString
  | String c1 s1 =>
      if isWhiteSpace c1 then trimStart s1 else
      match s1 with
      | EmptyString => s
      | String c2 s2 =>
          if isWhiteSpace2 c1 c2 then trimStart s2 else
          match s2 with
          | EmptyString => s
          | String c3 s3 =>
              if isWhiteSpace3 c1 c2 c3 then trimStart s3 else s
          end
      end
  end.

(** The same on a reversed string, whose code points have their bytes in
    reverse order. *)
Fixpoint trimStartReversed (s : string) : string :=
  match s with
  | EmptyString => EmptyString
  | String c1 s1 =>
      if isWhiteSpace c1 then trimStartReversed s1 else
      match s1 with
      | EmptyString => s
      | String c2 s2 =>
          if isWhiteSpace2 c2 c1 then trimStartReversed s2 else
          match s2 with
          | EmptyString => s
          | String c3 s3 =>
              if isWhiteSpace3 c3 c2 c1 then trimStartReversed s3 else s
          end
      end
  end.

Definition trim (s : string) : string :=
  String.rev (trimStartReversed (String.rev (trimStart s))).

Definition loadDatasets (env : Env)
  : Async (list DatasetEntry.t * list DatasetEntry.t) :=
  datasetA <- settled (read_datasetA env) ;;
  datasetB <- settled (read_datasetB env) ;;
  ret (datasetA, datasetB).

Definition createTextRepresentation (entry : DatasetEntry.t) : string :=
  "Name: " +:+ DatasetEntry.name entry +:+ nl +:+
  "Title: " +:+ DatasetEntry.title entry +:+ nl +:+
  "Summary: " +:+ DatasetEntry.summary entry +:+ nl +:+
  "Skills: " +:+ join ", " (DatasetEntry.skills entry).

Definition generateEmbedding (env : Env) (text : string) : Async (list float) :=
  response <- call_embeddings env
    (EmbeddingRequest.make "text-embedding-3-small" text) ;;
  (* response.data[0].embedding *)
  match response !! 0%nat with
  | Some embedding => ret embedding
  | None => throw TypeError
  end.

(** The loop shared, word for word, by [generateEmbeddingsWithBatching]
    and [generateDiffSummariesWithBatching]:
<<
    for (let i = 0; i < items.length; i += BATCH_SIZE) {
      const batch = items.slice(i, i + BATCH_SIZE)
      const batchPromises = batch.map(task)
      const batchResults = await Promise.all(batchPromises)
      results.push(...batchResults)
      if (i + BATCH_SIZE < items.length) {
        await new Promise((resolve) => setTimeout(resolve, RATE_LIMIT_DELAY))
      }
    }
    return results
>>
    [timing i] is the order in which the promises of the batch that
    starts at index [i] settle.  The loop runs out of [fuel] only when
    [BATCH_SIZE] is 0, where the source does not terminate either. *)
Fixpoint batchLoop {A B} (env : Env) (task : A -> Async B)
    (timing : nat -> list nat) (fuel : nat) (items : list A) (i : nat)
    (results : list B) : Async (list B) :=
  match fuel with
  | O => fun _ => None
  | S fuel' =>
      if Nat.ltb i (length items) then
        let batch := slice i (i + BATCH_SIZE env) items in
        andThen (launch task batch) (fun batchPromises =>
        batchResults <- Promise_all (timing i) batchPromises ;;
        let results := results ++ batchResults in
        _ <- (if Nat.ltb (i + BATCH_SIZE env) (length items)
              then setTimeout (RATE_LIMIT_DELAY env)
              else ret tt) ;;
        batchLoop env task timing fuel' items (i + BATCH_SIZE env) results)
      else ret results
  end.

Definition withBatching {A B} (env : Env) (task : A -> Async B)
    (timing : nat -> list nat) (items : list A) : Async (list B) :=
  batchLoop env task timing (S (length items)) items 0 [].

(** The arrow function mapped over a batch of entries. *)
Definition embedEntry (env : Env) (entry : DatasetEntry.t)
  : Async DatasetEntryWithEmbedding.t :=
  let text := createTextRepresentation entry in
  embedding <- generateEmbedding env text ;;
  ret (DatasetEntryWithEmbedding.make entry embedding).

Definition generateEmbeddingsWithBatching (env : Env)
    (timing : nat -> list nat) (entries : list DatasetEntry.t)
  : Async (list DatasetEntryWithEmbedding.t) :=
  withBatching env (embedEntry env) timing entries.

(** The body of the [for ... of] loop of [findBestMatch], on the pair
    ([bestMatch], [bestScore]). *)
Definition findBestMatch_step (env : Env) (entryA : DatasetEntryWithEmbedding.t)
    (best : option DatasetEntryWithEmbedding.t * float)
    (entryB : DatasetEntryWithEmbedding.t)
  : option DatasetEntryWithEmbedding.t * float :=
  let similarity :=
    cosineSimilarity env (DatasetEntryWithEmbedding.embedding entryA)
                         (DatasetEntryWithEmbedding.embedding entryB) in
  if (snd best <? similarity)%float   (* similarity > bestScore *)
  then (Some entryB, similarity)
  else best.

Definition findBestMatch (env : Env) (entryA : DatasetEntryWithEmbedding.t)
    (datasetBWithEmbeddings : list DatasetEntryWithEmbedding.t)
  : Completion MatchResult.t :=
  let '(bestMatch, bestScore) :=
    fold_left (findBestMatch_step env entryA) datasetBWithEmbeddings
              (None, (-1)%float) in
  match bestMatch with
  | None => Throw (Error "No match found")
  | Some m => Return (MatchResult.make m bestScore)
  end.

Definition diffPrompt (entryA entryB : DatasetEntry.t) : string :=
  "Compare these two user profiles and provide a brief summary of the differences:" +:+ nl +:+
  nl +:+
  "Profile A:" +:+ nl +:+
  "Name: " +:+ DatasetEntry.name entryA +:+ nl +:+
  "Title: " +:+ DatasetEntry.title entryA +:+ nl +:+
  "Summary: " +:+ DatasetEntry.summary entryA +:+ nl +:+
  "Skills: " +:+ join ", " (DatasetEntry.skills entryA) +:+ nl +:+
  nl +:+
  "Profile B:" +:+ nl +:+
  "Name: " +:+ DatasetEntry.name entryB +:+ nl +:+
  "Title: " +:+ DatasetEntry.title entryB +:+ nl +:+
  "Summary: " +:+ DatasetEntry.summary entryB +:+ nl +:+
  "Skills: " +:+ join ", " (DatasetEntry.skills entryB) +:+ nl +:+
  nl +:+
  "Provide a concise summary of the key differences (e.g., " +:+ dquote +:+
  "Skills updated, title changed from 'Dev' to 'Sr. Dev'" +:+ dquote +:+
  "). Focus on meaningful changes.".

Definition errorPlaceholder : string := "Error generating diff summary".

Definition generateDiffSummary (env : Env) (entryA entryB : DatasetEntry.t)
  : Async (option string) :=
  try_catch
    (let prompt := diffPrompt entryA entryB in
     response <- call_chat env
       (ChatRequest.make "gpt-4.1-mini" [("user", prompt)] 200 0.3%float) ;;
     (* response.choices[0].message.content?.trim() ?? null *)
     match response !! 0%nat with
     | None => throw TypeError
     | Some content => ret (option_map trim content)
     end)
    (fun error => ret (Some errorPlaceholder)).

(** The arrow function mapped over a batch of comparisons. *)
Definition summarize (env : Env) (comparison : Comparison.t)
  : Async ComparisonResult.t :=
  diffSummary <-
    (if (Comparison.similarityScore comparison =? 1)%float
     then ret (Some "No differences")
     else generateDiffSummary env (Comparison.entryA comparison)
                                  (Comparison.match_ comparison)) ;;
  ret (ComparisonResult.make (Comparison.entryA comparison)
                             (Comparison.match_ comparison)
                             (Comparison.similarityScore comparison)
                             diffSummary).

Definition generateDiffSummariesWithBatching (env : Env)
    (timing : nat -> list nat) (comparisons : list Comparison.t)
  : Async (list ComparisonResult.t) :=
  withBatching env (summarize env) timing comparisons.

(** The object literal of [compareDatasets] that copies the five fields
    of an entry with its embedding:
<<
    { id: e.id, name: e.name, title: e.title, summary: e.summary,
      skills: e.skills }
>>
    a new object with these five properties and no other. *)
Definition fiveFields (e : DatasetEntryWithEmbedding.t) : EntryObject :=
  Plain (DatasetEntry.make
           (DatasetEntry.id (DatasetEntryWithEmbedding.entry e))
           (DatasetEntry.name (DatasetEntryWithEmbedding.entry e))
           (DatasetEntry.title (DatasetEntryWithEmbedding.entry e))
           (DatasetEntry.summary (DatasetEntryWithEmbedding.entry e))
           (DatasetEntry.skills (DatasetEntryWithEmbedding.entry e))).

(** The arrow function of [datasetAWithEmbeddings.map] in
    [compareDatasets]. *)
Definition compareEntry (env : Env)
    (datasetBWithEmbeddings : list DatasetEntryWithEmbedding.t)
    (entryA : DatasetEntryWithEmbedding.t) : Completion Comparison.t :=
  bindC (findBestMatch env entryA datasetBWithEmbeddings) (fun r =>
  Return (Comparison.make (fiveFields entryA)
                          (fiveFields (MatchResult.match_ r))
                          (MatchResult.score r))).

(** The completion orders of the three batched runs of one comparison. *)
Record Timing := mkTiming {
  timingA : nat -> list nat;
  timingB : nat -> list nat;
  timingDiff : nat -> list nat
}.

Definition compareDatasets (env : Env) (tm : Timing) : Async unit :=
  datasets <- loadDatasets env ;;
  let '(datasetA, datasetB) := datasets in
  datasetAWithEmbeddings <-
    generateEmbeddingsWithBatching env (timingA tm) datasetA ;;
  datasetBWithEmbeddings <-
    generateEmbeddingsWithBatching env (timingB tm) datasetB ;;
  comparisons <-
    settled (mapC (compareEntry env datasetBWithEmbeddings)
                  datasetAWithEmbeddings) ;;
  finalResults <-
    generateDiffSummariesWithBatching env (timingDiff tm) comparisons ;;
  let report :=
    ComparisonReport.make (Date_toISOString env) (length finalResults)
                          finalResults in
  _ <- writeFile report ;;
  ret tt.

(* ================================================================== *)
(** * What a batched run is expected to do *)

(** Every promise of a batch of [n] settles at some point of [sched]. *)
Definition settlesAll (sched : list nat) (n : nat) : bool :=
  forallb (fun j => existsb (Nat.eqb j) sched) (seq 0 n).

(** [timing] lets every promise of every batch of [items] settle. *)
Definition timingOK {A} (env : Env) (timing : nat -> list nat)
    (items : list A) : bool :=
  forallb
    (fun i => settlesAll (timing i)
                (length (slice i (i + BATCH_SIZE env) items)))
    (seq 0 (length items)).

(** The least [k] with [n <= k * b], for [0 < b]. *)
Definition ceilDiv (n b : Z) : Z := (n + b - 1) / b.

(** The request of [embedEntry], and the completion of its promise. *)
Definition embeddingRequestOf (entry : DatasetEntry.t) : EmbeddingRequest.t :=
  EmbeddingRequest.make "text-embedding-3-small" (createTextRepresentation entry).

Definition embedOutcome (env : Env) (entry : DatasetEntry.t)
  : Completion DatasetEntryWithEmbedding.t :=
  match embeddings_create env (embeddingRequestOf entry) with
  | Return response =>
      match response !! 0%nat with
      | Some embedding => Return (DatasetEntryWithEmbedding.make entry embedding)
      | None => Throw TypeError
      end
  | Throw e => Throw e
  end.

(** The request of [generateDiffSummary], and the value it returns. *)
Definition chatRequestOf (entryA entryB : DatasetEntry.t) : ChatRequest.t :=
  ChatRequest.make "gpt-4.1-mini" [("user", diffPrompt entryA entryB)]
                   200 0.3%float.

Definition diffSummaryOf (env : Env) (entryA entryB : DatasetEntry.t)
  : option string :=
  match chat_completions_create env (chatRequestOf entryA entryB) with
  | Return response =>
      match response !! 0%nat with
      | Some content => option_map trim content
      | None => Some errorPlaceholder
      end
  | Throw _ => Some errorPlaceholder
  end.

Definition identical (c : Comparison.t) : bool :=
  (Comparison.similarityScore c =? 1)%float.

Definition summaryOf (env : Env) (c : Comparison.t) : ComparisonResult.t :=
  ComparisonResult.make (Comparison.entryA c) (Comparison.match_ c)
    (Comparison.similarityScore c)
    (if identical c then Some "No differences"
     else diffSummaryOf env (Comparison.entryA c) (Comparison.match_ c)).

(** The world after the calls of [items] have been issued, in order. *)
Definition issueAll {A} (issue : A -> World -> World) (items : list A)
    (w : World) : World :=
  fold_left (fun w x => issue x w) items w.

(** The number of pauses of a batched run over [n] items. *)
Definition pausesOf (env : Env) (n : nat) : nat := (n - 1) / BATCH_SIZE env.

Definition embedIssue (entry : DatasetEntry.t) (w : World) : World :=
  logEmbedding (embeddingRequestOf entry) w.

Definition summarizeIssue (c : Comparison.t) (w : World) : World :=
  if identical c then w
  else logChat (chatRequestOf (Comparison.entryA c) (Comparison.match_ c)) w.

(** The completion requests of a run of the diff stage: one for every
    comparison that is not an identity, in order. *)
Definition differing (comparisons : list Comparison.t) : list Comparison.t :=
  filter (fun c => identical c = false) comparisons.

Definition chatRequestOfComparison (c : Comparison.t) : ChatRequest.t :=
  chatRequestOf (Comparison.entryA c) (Comparison.match_ c).

(** The similarity that [findBestMatch] computes for a target. *)
Definition similarityTo (env : Env) (entryA entryB : DatasetEntryWithEmbedding.t)
  : float :=
  cosineSimilarity env (DatasetEntryWithEmbedding.embedding entryA)
                       (DatasetEntryWithEmbedding.embedding entryB).

(** What the loop of [findBestMatch] keeps true of the pair
    ([bestMatch], [bestScore]). *)
Definition bestInv (env : Env) (entryA : DatasetEntryWithEmbedding.t)
    (targets : list DatasetEntryWithEmbedding.t)
    (best : option DatasetEntryWithEmbedding.t * float) : Prop :=
  match fst best with
  | None => snd best = (-1)%float
  | Some m =>
      m ∈ targets /\
      snd best = cosineSimilarity env (DatasetEntryWithEmbedding.embedding entryA)
                                      (DatasetEntryWithEmbedding.embedding m) /\
      ((-1) <? snd best)%float = true
  end.

(** What the loop of [findBestMatch] has established once the targets
    [seen] have been visited: nothing was found and no similarity
    exceeded -1; or the best match is the target at some index [k], its
    similarity is the best score, no similarity seen exceeds it, and
    every target before [k] has a smaller similarity or none (NaN). *)
Definition bestSoFar (env : Env) (entryA : DatasetEntryWithEmbedding.t)
    (seen : list DatasetEntryWithEmbedding.t)
    (best : option DatasetEntryWithEmbedding.t * float) : Prop :=
  match fst best with
  | None =>
      snd best = (-1)%float /\
      forall b, b ∈ seen -> ((-1) <? similarityTo env entryA b)%float = false
  | Some m =>
      exists k,
        seen !! k = Some m /\
        snd best = similarityTo env entryA m /\
        ((-1) <? snd best)%float = true /\
        (forall b, b ∈ seen ->
                   (snd best <? similarityTo env entryA b)%float = false) /\
        (forall j b, j < k -> seen !! j = Some b ->
                     (similarityTo env entryA b <? snd best)%float = true \/
                     (similarityTo env entryA b =? similarityTo env entryA b)%float
                     = false)
  end.

(* ================================================================== *)
(** * Instances for the examples *)

(** Modelled from the spec: the package [cos-similarity] is not among the
    sources.  "Output: cosine similarity — dot product divided by the
    product of magnitudes." *)
Fixpoint dotProduct (a b : list float) : float :=
  match a, b with
  | x :: a', y :: b' => (x * y + dotProduct a' b')%float
  | _, _ => 0%float
  end.

Definition cosine (a b : list float) : float :=
  (dotProduct a b / (sqrt (dotProduct a a) * sqrt (dotProduct b b)))%float.

(** The script as shipped: [BATCH_SIZE = 10], [RATE_LIMIT_DELAY = 1000]. *)
Definition shipped
    (embed : EmbeddingRequest.t -> Completion EmbeddingResponse)
    (chat : ChatRequest.t -> Completion ChatResponse)
    (datasetA datasetB : list DatasetEntry.t) : Env :=
  mkEnv 10 1000 cosine embed chat (Return datasetA) (Return datasetB)
        "2025-01-01T00:00:00.000Z".

Definition profile (i : Z) (nm : string) : DatasetEntry.t :=
  DatasetEntry.make i nm "Eng" "builds things" ["Go"].

Definition east : DatasetEntryWithEmbedding.t :=
  DatasetEntryWithEmbedding.make (profile 1 "A") [1%float; 0%float].
Definition east' : DatasetEntryWithEmbedding.t :=
  DatasetEntryWithEmbedding.make (profile 6 "F") [1%float; 0%float].
Definition west : DatasetEntryWithEmbedding.t :=
  DatasetEntryWithEmbedding.make (profile 2 "B") [(-1)%float; 0%float].
Definition west' : DatasetEntryWithEmbedding.t :=
  DatasetEntryWithEmbedding.make (profile 3 "C") [(-1)%float; 0%float].
Definition north : DatasetEntryWithEmbedding.t :=
  DatasetEntryWithEmbedding.make (profile 4 "D") [0%float; 1%float].

(** An embedding service that answers by the name in the text: [east]
    for "A", [west] for "B" and "C", [north] for anything else but "X",
    for which it fails. *)
Definition embedByName (req : EmbeddingRequest.t) : Completion EmbeddingResponse :=
  let text := EmbeddingRequest.input req in
  if String.prefix "Name: A" text then Return [[1%float; 0%float]]
  else if String.prefix "Name: B" text then Return [[(-1)%float; 0%float]]
  else if String.prefix "Name: C" text then Return [[(-1)%float; 0%float]]
  else if String.prefix "Name: X" text then Throw (ServiceError "rate limited")
  else Return [[0%float; 1%float]].

Definition chatDown (_ : ChatRequest.t) : Completion ChatResponse :=
  Throw (ServiceError "unavailable").
Definition chatSilent (_ : ChatRequest.t) : Completion ChatResponse :=
  Return [None].
Definition chatTalks (_ : ChatRequest.t) : Completion ChatResponse :=
  Return [Some "  Title changed.  "].

(** Completion orders: last request first, for batches of up to ten. *)
Definition lastFirst (_ : nat) : list nat := rev (seq 0 10).
Definition reversed : Timing := mkTiming lastFirst lastFirst lastFirst.

(** The script with batches of two. *)
Definition batchesOfTwo
    (chat : ChatRequest.t -> Completion ChatResponse) : Env :=
  mkEnv 2 1000 cosine embedByName chat (Return []) (Return [])
        "2025-01-01T00:00:00.000Z".

Definition fiveProfiles : list DatasetEntry.t :=
  [profile 1 "A"; profile 2 "B"; profile 3 "C"; profile 4 "D"; profile 5 "E"].

Definition threePairs : list Comparison.t :=
  [Comparison.make (profile 1 "A") (profile 4 "D") 0.5%float;
   Comparison.make (profile 2 "B") (profile 3 "C") 1%float;
   Comparison.make (profile 5 "E") (profile 4 "D") 0.25%float].

(** The values of the fulfilled promises of a list. *)
Definition valuesOf {A} (cs : list (Completion A)) : list A :=
  omap (fun c => match c with Return v => Some v | Throw _ => None end) cs.

Definition valueOr {A} (d : A) (c : Completion A) : A :=
  match c with Return v => v | Throw _ => d end.

(** A run in which the completion service is down: "A" and "E" against
    "B" and "D". *)
Definition runChatDown : Env :=
  shipped embedByName chatDown [profile 1 "A"; profile 5 "E"]
          [profile 2 "B"; profile 4 "D"].

(** A run in which the embedding of the last entry of the second
    dataset fails. *)
Definition runEmbedFails : Env :=
  shipped embedByName chatTalks [profile 1 "A"]
          [profile 2 "B"; profile 9 "X"].

(** Five entries of which the third cannot be embedded. *)
Definition profilesWithX : list DatasetEntry.t :=
  [profile 1 "A"; profile 2 "B"; profile 9 "X"; profile 4 "D"; profile 5 "E"].

(** A run whose first dataset cannot be read. *)
Definition runNoDatasetA : Env :=
  mkEnv 10 1000 cosine embedByName chatTalks
        (Throw (Error "ENOENT: no such file or directory, open 'datasetA.json'"))
        (Return [profile 2 "B"]) "2025-01-01T00:00:00.000Z".

(** Runs with an empty target dataset, and with an empty source
    dataset. *)
Definition runEmptyTarget : Env :=
  shipped embedByName chatTalks [profile 1 "A"; profile 5 "E"] [].
Definition runEmptySource : Env :=
  shipped embedByName chatTalks [] [profile 2 "B"; profile 4 "D"].

(* ================================================================== *)
(** * Properties *)

(** ** Comparisons of binary64 numbers *)

Section FloatOrder.

Lemma SFcompare_refl_finite s m e :
  SFcompare (S754_finite s m e) (S754_finite s m e) = Some Eq.
Proof.
  simpl. rewrite Z.compare_refl, Pos.compare_cont_refl.
  destruct s; reflexivity.
Qed.

Lemma SFcompare_Lt_trans x y z :
  SFcompare x y = Some Lt -> SFcompare y z = Some Lt ->
  SFcompare x z = Some Lt.
Proof.
  destruct x as [sx|sx| |sx mx ex], y as [sy|sy| |sy my ey],
           z as [sz|sz| |sz mz ez];
    simpl; try discriminate;
    repeat match goal with s : bool |- _ => destruct s end;
    try discriminate; try reflexivity.
  all: intros H1 H2; f_equal.
  all: destruct (Z.compare_spec ex ey), (Z.compare_spec ey ez);
    try discriminate; subst; rewrite ?Z.compare_refl.
  all: try (destruct (Z.compare_spec ex ez); try lia; try reflexivity).
  all: try (destruct (Z.compare_spec ey ez); try lia; try reflexivity).
  all: change (Pos.compare_cont Eq ?a ?b) with (Pos.compare a b) in *.
  all: destruct (Pos.compare_spec mx my), (Pos.compare_spec my mz);
    try discriminate.
  all: destruct (Pos.compare_spec mx mz); simpl; try lia; try reflexivity.
Qed.

(** [x < y] and [y < z] give [x < z]. *)
Lemma ltb_trans x y z :
  (x <? y)%float = true -> (y <? z)%float = true -> (x <? z)%float = true.
Proof.
  rewrite !FloatAxioms.ltb_spec. unfold SFltb.
  destruct (SFcompare (Prim2SF x) (Prim2SF y)) as [[]|] eqn:E1;
    try discriminate.
  destruct (SFcompare (Prim2SF y) (Prim2SF z)) as [[]|] eqn:E2;
    try discriminate.
  intros _ _. rewrite (SFcompare_Lt_trans _ _ _ E1 E2). reflexivity.
Qed.

(** A number that is greater than another is not NaN: it is [===] to
    itself. *)
Lemma ltb_not_nan x y : (x <? y)%float = true -> (y =? y)%float = true.
Proof.
  rewrite FloatAxioms.ltb_spec, FloatAxioms.eqb_spec. unfold SFltb, SFeqb.
  destruct (Prim2SF y) as [| | |s m e].
  - reflexivity.
  - destruct s; reflexivity.
  - destruct (Prim2SF x) as [[]|[]| |]; simpl; discriminate.
  - rewrite SFcompare_refl_finite. reflexivity.
Qed.

Lemma ltb_irrefl x : (x <? x)%float = false.
Proof.
  rewrite FloatAxioms.ltb_spec. unfold SFltb.
  destruct (Prim2SF x) as [[]|[]| |s m e]; try reflexivity.
  rewrite SFcompare_refl_finite. reflexivity.
Qed.

Lemma SFcompare_antisym x y c :
  SFcompare x y = Some c -> SFcompare y x = Some (CompOpp c).
Proof.
  destruct x as [sx|sx| |sx mx ex], y as [sy|sy| |sy my ey];
    simpl; try discriminate;
    repeat match goal with s : bool |- _ => destruct s end;
    intros H; injection H as <-; try reflexivity.
  all: rewrite (Z.compare_antisym ex ey).
  all: destruct (ex ?= ey)%Z; simpl; try reflexivity.
  all: change (Pos.compare_cont Eq ?a ?b) with (Pos.compare a b).
  all: rewrite (Pos.compare_antisym mx my).
  all: destruct (mx ?= my)%positive; reflexivity.
Qed.

Lemma eqb_refl_not_nan x : (x =? x)%float = true -> Prim2SF x <> S754_nan.
Proof.
  rewrite FloatAxioms.eqb_spec. intros H E. rewrite E in H. discriminate.
Qed.

Lemma SFcompare_total x y :
  x <> S754_nan -> y <> S754_nan -> exists c, SFcompare x y = Some c.
Proof. destruct x, y; simpl; try congruence; eauto. Qed.

(** Two numbers, neither of them NaN, are comparable. *)
Lemma float_trichotomy x y :
  (x =? x)%float = true -> (y =? y)%float = true ->
  (x <? y)%float = true \/ (x =? y)%float = true \/ (y <? x)%float = true.
Proof.
  intros Hx Hy.
  destruct (SFcompare_total _ _ (eqb_refl_not_nan _ Hx) (eqb_refl_not_nan _ Hy))
    as [c Hc].
  rewrite !FloatAxioms.ltb_spec, FloatAxioms.eqb_spec. unfold SFltb, SFeqb.
  rewrite (SFcompare_antisym _ _ _ Hc), Hc.
  destruct c; simpl; auto.
Qed.

Lemma ltb_leb_false x y : (x <? y)%float = true -> (y <=? x)%float = false.
Proof.
  rewrite FloatAxioms.ltb_spec, FloatAxioms.leb_spec. unfold SFltb, SFleb.
  destruct (SFcompare (Prim2SF x) (Prim2SF y)) as [[]|] eqn:E;
    try discriminate.
  intros _. rewrite (SFcompare_antisym _ _ _ E). reflexivity.
Qed.

End FloatOrder.

(** ** The matcher *)

Section Matcher.

Variable env : Env.
Variable entryA : DatasetEntryWithEmbedding.t.

Lemma findBestMatch_step_inv targets best entryB :
  bestInv env entryA targets best -> entryB ∈ targets ->
  bestInv env entryA targets (findBestMatch_step env entryA best entryB).
Proof.
  intros Hinv Hin. unfold findBestMatch_step. fold (similarityTo env entryA entryB).
  destruct (snd best <? similarityTo env entryA entryB)%float eqn:Hlt; [|exact Hinv].
  unfold bestInv in *. simpl. repeat split; [exact Hin|].
  destruct (fst best) as [m|].
  - destruct Hinv as (_ & _ & Hm). exact (ltb_trans _ _ _ Hm Hlt).
  - rewrite <- Hinv. exact Hlt.
Qed.

Lemma findBestMatch_loop_inv targets l best :
  bestInv env entryA targets best -> (forall b, b ∈ l -> b ∈ targets) ->
  bestInv env entryA targets (fold_left (findBestMatch_step env entryA) l best).
Proof.
  revert best. induction l as [|b l IH]; intros best Hinv Hsub; simpl.
  - exact Hinv.
  - apply IH.
    + apply findBestMatch_step_inv; [exact Hinv|]. apply Hsub. left.
    + intros b' Hb'. apply Hsub. right. exact Hb'.
Qed.

(** A target whose similarity does not exceed the current best score
    (a NaN never does) leaves the pair as it is. *)
Lemma findBestMatch_loop_keep l best :
  (forall b, b ∈ l -> (snd best <? similarityTo env entryA b)%float = false) ->
  fold_left (findBestMatch_step env entryA) l best = best.
Proof.
  revert best. induction l as [|b l IH]; intros best Hle; simpl.
  - reflexivity.
  - assert (Hb : findBestMatch_step env entryA best b = best).
    { unfold findBestMatch_step. fold (similarityTo env entryA b).
      rewrite (Hle b) by left. reflexivity. }
    rewrite Hb. apply IH. intros b' Hb'. apply Hle. right. exact Hb'.
Qed.

End Matcher.

(** On a single target the loop runs once: the target is the match when
    its similarity exceeds the initial best score -1, and nothing is
    found otherwise. *)
Lemma findBestMatch_single env entryA entryB :
  findBestMatch env entryA [entryB] =
  let similarity :=
    cosineSimilarity env (DatasetEntryWithEmbedding.embedding entryA)
                         (DatasetEntryWithEmbedding.embedding entryB) in
  if ((-1) <? similarity)%float
  then Return (MatchResult.make entryB similarity)
  else Throw (Error "No match found").
Proof.
  unfold findBestMatch, findBestMatch_step. simpl.
  destruct (_ <? _)%float; reflexivity.
Qed.

(** Among several targets, the first one whose similarity is the greatest
    is the match, provided that this similarity exceeds -1. *)
Lemma findBestMatch_first_max env entryA targets k entryB :
  let sim b :=
    cosineSimilarity env (DatasetEntryWithEmbedding.embedding entryA)
                         (DatasetEntryWithEmbedding.embedding b) in
  targets !! k = Some entryB ->
  ((-1) <? sim entryB)%float = true ->
  (forall b, b ∈ targets -> (sim entryB <? sim b)%float = false) ->
  (forall j b, j < k -> targets !! j = Some b ->
               (sim b =? sim entryB)%float = false) ->
  findBestMatch env entryA targets =
  Return (MatchResult.make entryB (sim entryB)).
Proof.
  intros sim Hk Hgt Hmax Hfirst.
  assert (Hsplit : targets = take k targets ++ entryB :: drop (S k) targets).
  { rewrite <- (take_drop k targets) at 1. f_equal.
    apply drop_S. exact Hk. }
  unfold findBestMatch. rewrite Hsplit, fold_left_app. simpl.
  pose proof (findBestMatch_loop_inv env entryA (take k targets)
                (take k targets) (None, (-1)%float) eq_refl (fun b H => H))
    as Hinv.
  destruct (fold_left _ (take k targets) _) as [bm bs] eqn:Hpre.
  assert (Hlt : (bs <? sim entryB)%float = true).
  { unfold bestInv in Hinv. simpl in Hinv. destruct bm as [m|].
    - destruct Hinv as (Hin & Hbs & Hm). fold (sim m) in Hbs. subst bs.
      apply list_elem_of_lookup in Hin as [j Hj].
      pose proof (lookup_lt_Some _ _ _ Hj) as Hjlt.
      rewrite length_take in Hjlt.
      rewrite lookup_take_lt in Hj by lia.
      destruct (float_trichotomy (sim m) (sim entryB)
                  (ltb_not_nan _ _ Hm) (ltb_not_nan _ _ Hgt))
        as [H|[H|H]].
      + exact H.
      + rewrite (Hfirst j m) in H by (lia || exact Hj). discriminate.
      + rewrite (Hmax m) in H; [discriminate|].
        apply list_elem_of_lookup. eauto.
    - subst bs. exact Hgt. }
  unfold findBestMatch_step at 2. fold (sim entryB). simpl. rewrite Hlt.
  rewrite findBestMatch_loop_keep.
  - reflexivity.
  - intros b Hb. simpl. apply Hmax.
    rewrite Hsplit. apply elem_of_app. right. right. exact Hb.
Qed.

(** Two targets tie at similarity 1: the first of them is the match. *)
Example findBestMatch_first_max_example :
  findBestMatch (shipped embedByName chatDown [] []) east
                [west; north; east'; east]
  = Return (MatchResult.make east' 1%float).
Proof.
  apply (findBestMatch_first_max (shipped embedByName chatDown [] []) east
           [west; north; east'; east] 2 east').
  - reflexivity.
  - vm_compute. reflexivity.
  - intros b Hb. repeat (apply elem_of_cons in Hb as [->|Hb]);
      [vm_compute; reflexivity..|inversion Hb].
  - intros [|[|j]] b Hj Hb; [| |lia]; injection Hb as <-;
      vm_compute; reflexivity.
Qed.

(** C6: with an empty target sequence [findBestMatch] throws the error
    "No match found", whatever the source entry: it returns nothing, and
    the comparison of the entry in [compareDatasets] throws the same
    error. *)
Theorem findBestMatch_empty env entryA :
  findBestMatch env entryA [] = Throw (Error "No match found") /\
  (forall r, findBestMatch env entryA [] <> Return r) /\
  compareEntry env [] entryA = Throw (Error "No match found").
Proof.
  assert (H : findBestMatch env entryA [] = Throw (Error "No match found"))
    by reflexivity.
  split; [exact H|]. split.
  - intros r Hr. rewrite H in Hr. discriminate.
  - unfold compareEntry. rewrite H. reflexivity.
Qed.

(** What a returned match is. *)
Lemma findBestMatch_returns_inv env entryA targets r :
  findBestMatch env entryA targets = Return r ->
  MatchResult.match_ r ∈ targets /\
  MatchResult.score r =
    cosineSimilarity env (DatasetEntryWithEmbedding.embedding entryA)
      (DatasetEntryWithEmbedding.embedding (MatchResult.match_ r)) /\
  ((-1) <? MatchResult.score r)%float = true.
Proof.
  unfold findBestMatch. intros H.
  pose proof (findBestMatch_loop_inv env entryA targets targets
                (None, (-1)%float) eq_refl (fun b Hb => Hb)) as Hinv.
  destruct (fold_left _ targets _) as [[m|] bs]; [|discriminate].
  injection H as <-. exact Hinv.
Qed.

(** C9: when [findBestMatch] returns, the score is greater than -1, is
    not NaN (it is [===] to itself), is not less than or equal to -1, and
    is the cosine similarity of the source entry's embedding and the
    embedding of the returned match, which is one of the targets. *)
Theorem findBestMatch_score env entryA targets r :
  findBestMatch env entryA targets = Return r ->
  ((-1) <? MatchResult.score r)%float = true /\
  (MatchResult.score r =? MatchResult.score r)%float = true /\
  (MatchResult.score r <=? (-1))%float = false /\
  MatchResult.score r =
    cosineSimilarity env (DatasetEntryWithEmbedding.embedding entryA)
      (DatasetEntryWithEmbedding.embedding (MatchResult.match_ r)) /\
  MatchResult.match_ r ∈ targets.
Proof.
  intros H.
  destruct (findBestMatch_returns_inv env entryA targets r H)
    as (Hin & Hbs & Hgt).
  repeat split; try assumption.
  - exact (ltb_not_nan _ _ Hgt).
  - exact (ltb_leb_false _ _ Hgt).
Qed.

Lemma findBestMatch_score_witness :
  let r := MatchResult.make east 1%float in
  ((-1) <? MatchResult.score r)%float = true /\
  (MatchResult.score r =? MatchResult.score r)%float = true /\
  (MatchResult.score r <=? (-1))%float = false /\
  MatchResult.score r =
    cosine (DatasetEntryWithEmbedding.embedding east)
           (DatasetEntryWithEmbedding.embedding (MatchResult.match_ r)) /\
  MatchResult.match_ r ∈ [west; north; east; east].
Proof.
  exact (findBestMatch_score (shipped embedByName chatDown [] []) east
           [west; north; east; east] (MatchResult.make east 1%float) eq_refl).
Defined.

(** C1: a source entry whose embedding is (1, 0) and a single target
    whose embedding is (-1, 0): the similarity is -1, which does not
    exceed the initial best score, and [findBestMatch] throws instead of
    returning the single target. *)
Theorem findBestMatch_single_antipodal :
  cosine (DatasetEntryWithEmbedding.embedding east)
         (DatasetEntryWithEmbedding.embedding west) = (-1)%float /\
  findBestMatch (shipped embedByName chatDown [] []) east [west]
  = Throw (Error "No match found").
Proof. split; vm_compute; reflexivity. Qed.

(** C7: two targets that both attain the greatest similarity to the
    source entry, -1: [findBestMatch] throws instead of returning the
    first of them. *)
Theorem findBestMatch_tie_antipodal :
  cosine (DatasetEntryWithEmbedding.embedding east)
         (DatasetEntryWithEmbedding.embedding west) = (-1)%float /\
  cosine (DatasetEntryWithEmbedding.embedding east)
         (DatasetEntryWithEmbedding.embedding west') = (-1)%float /\
  findBestMatch (shipped embedByName chatDown [] []) east [west; west']
  = Throw (Error "No match found").
Proof. repeat split; vm_compute; reflexivity. Qed.

(** ** [Promise.all] *)

Section PromiseAll.

Context {A : Type}.

Lemma collect_Some (vs : list A) : collect (Some <$> vs) = Some vs.
Proof.
  induction vs as [|v vs IH]; [reflexivity|].
  rewrite fmap_cons. cbn [collect]. rewrite IH. reflexivity.
Qed.

Lemma settlesAll_elem sched n j :
  settlesAll sched n = true -> j < n -> j ∈ sched.
Proof.
  unfold settlesAll. rewrite forallb_forall. intros H Hj.
  specialize (H j). rewrite in_seq in H.
  assert (Hex : existsb (Nat.eqb j) sched = true) by (apply H; lia).
  apply existsb_exists in Hex as (j' & Hin & Heq).
  apply Nat.eqb_eq in Heq. subst j'. apply list_elem_of_In. exact Hin.
Qed.

(** When every promise is fulfilled and every one of them settles, the
    result is the array of the values in the order of the promises,
    whatever the order of completion. *)
Lemma settleAll_returns (vs : list A) sched slots :
  length slots = length vs ->
  (forall j v, slots !! j = Some (Some v) -> vs !! j = Some v) ->
  (forall j, j < length vs -> j ∈ sched \/ exists v, slots !! j = Some (Some v)) ->
  settleAll sched (Return <$> vs) slots = Some (Return vs).
Proof.
  revert slots. induction sched as [|k sched IH]; intros slots Hlen Hok Hcov.
  - simpl. assert (Hslots : slots = Some <$> vs).
    { apply list_eq. intros j. rewrite list_lookup_fmap.
      destruct (decide (j < length vs)) as [Hj|Hj].
      - destruct (Hcov j Hj) as [Hin|[v Hv]].
        + inversion Hin.
        + rewrite Hv, (Hok _ _ Hv). reflexivity.
      - rewrite !lookup_ge_None_2 by lia. reflexivity. }
    rewrite Hslots, collect_Some. reflexivity.
  - simpl. rewrite list_lookup_fmap.
    destruct (vs !! k) as [v|] eqn:Hk; simpl.
    + pose proof (lookup_lt_Some _ _ _ Hk) as Hklt.
      apply IH.
      * rewrite length_insert. exact Hlen.
      * intros j v' Hj. destruct (decide (j = k)) as [->|Hne].
        -- rewrite list_lookup_insert_eq in Hj by lia. congruence.
        -- rewrite list_lookup_insert_ne in Hj by congruence. eauto.
      * intros j Hj. destruct (decide (j = k)) as [->|Hne].
        -- right. exists v. apply list_lookup_insert_eq. lia.
        -- destruct (Hcov j Hj) as [Hin|[v' Hv']].
           ++ left. apply elem_of_cons in Hin as [?|?]; [congruence|assumption].
           ++ right. exists v'. rewrite list_lookup_insert_ne by congruence.
              exact Hv'.
    + apply IH; [exact Hlen|exact Hok|].
      intros j Hj. destruct (Hcov j Hj) as [Hin|?]; [|auto].
      left. apply elem_of_cons in Hin as [->|?]; [|assumption].
      apply lookup_ge_None_1 in Hk. lia.
Qed.

(** When one of the promises is rejected and settles, the result is a
    rejection, with the reason of one of the rejected promises. *)
Lemma settleAll_throws (promises : list (Completion A)) sched slots k e :
  promises !! k = Some (Throw e) -> k ∈ sched ->
  exists e', settleAll sched promises slots = Some (Throw e') /\
             Throw e' ∈ promises.
Proof.
  intros Hk. revert slots.
  induction sched as [|k' sched IH]; intros slots Hin.
  - inversion Hin.
  - simpl. destruct (promises !! k') as [[v|e']|] eqn:Hk'.
    + apply IH. apply elem_of_cons in Hin as [->|?]; [congruence|assumption].
    + exists e'. split; [reflexivity|].
      apply list_elem_of_lookup. eauto.
    + apply IH. apply elem_of_cons in Hin as [->|?]; [congruence|assumption].
Qed.

Lemma Promise_all_returns (vs : list A) sched w :
  settlesAll sched (length vs) = true ->
  Promise_all sched (Return <$> vs) w = Some (w, Return vs).
Proof.
  intros Hs. unfold Promise_all. rewrite length_fmap.
  rewrite settleAll_returns; [reflexivity| | |].
  - apply length_replicate.
  - intros j v Hj. apply lookup_replicate in Hj as [? _]. discriminate.
  - intros j Hj. left. exact (settlesAll_elem _ _ _ Hs Hj).
Qed.

Lemma Promise_all_throws (promises : list (Completion A)) sched w k e :
  settlesAll sched (length promises) = true ->
  promises !! k = Some (Throw e) ->
  exists e', Promise_all sched promises w = Some (w, Throw e') /\
             Throw e' ∈ promises.
Proof.
  intros Hs Hk. unfold Promise_all.
  destruct (settleAll_throws promises sched
              (replicate (length promises) None) k e Hk) as (e' & -> & Hin).
  - apply (settlesAll_elem _ _ _ Hs). exact (lookup_lt_Some _ _ _ Hk).
  - eauto.
Qed.

End PromiseAll.

(** ** What a fulfilled [Promise.all] tells *)

Section PromiseAllSound.

Context {A : Type}.

Lemma collect_inv (slots : list (option A)) vs :
  collect slots = Some vs -> slots = Some <$> vs.
Proof.
  revert vs. induction slots as [|[v|] slots IH]; intros vs H; simpl in H.
  - injection H as <-. reflexivity.
  - destruct (collect slots) as [vs'|]; [|discriminate].
    injection H as <-. rewrite (IH vs' eq_refl). reflexivity.
  - discriminate.
Qed.

(** A fulfilled combination holds, slot by slot, the values of the
    promises, whatever the schedule was. *)
Lemma settleAll_sound (promises : list (Completion A)) sched slots vs :
  settleAll sched promises slots = Some (Return vs) ->
  length slots = length promises ->
  (forall j v, slots !! j = Some (Some v) -> promises !! j = Some (Return v)) ->
  promises = Return <$> vs.
Proof.
  revert slots. induction sched as [|k sched IH]; intros slots H Hlen Hok.
  - simpl in H. destruct (collect slots) as [vs'|] eqn:Hc; [|discriminate].
    injection H as ->. apply collect_inv in Hc. subst slots.
    rewrite length_fmap in Hlen.
    apply list_eq. intros j. rewrite list_lookup_fmap.
    destruct (vs !! j) as [v|] eqn:Hj; simpl.
    + apply Hok. rewrite list_lookup_fmap, Hj. reflexivity.
    + apply lookup_ge_None_1 in Hj. apply lookup_ge_None_2. lia.
  - simpl in H. destruct (promises !! k) as [[v|e]|] eqn:Hk.
    + apply (IH _ H).
      * rewrite length_insert. exact Hlen.
      * intros j v' Hj. destruct (decide (j = k)) as [->|Hne].
        -- pose proof (lookup_lt_Some _ _ _ Hk).
           rewrite list_lookup_insert_eq in Hj by lia. congruence.
        -- rewrite list_lookup_insert_ne in Hj by congruence. eauto.
    + discriminate.
    + exact (IH _ H Hlen Hok).
Qed.

Lemma Promise_all_world (promises : list (Completion A)) sched w w' c :
  Promise_all sched promises w = Some (w', c) -> w' = w.
Proof.
  unfold Promise_all. destruct (settleAll _ _ _); [|discriminate].
  intros H. injection H as <- _. reflexivity.
Qed.

Lemma Promise_all_sound (promises : list (Completion A)) sched w w' vs :
  Promise_all sched promises w = Some (w', Return vs) ->
  promises = Return <$> vs.
Proof.
  unfold Promise_all.
  destruct (settleAll _ _ _) as [c|] eqn:Hs; [|discriminate].
  intros H. injection H as _ ->.
  apply (settleAll_sound _ _ _ _ Hs).
  - apply length_replicate.
  - intros j v Hj. apply lookup_replicate in Hj as [? _]. discriminate.
Qed.

End PromiseAllSound.

(** ** The batch loop *)

Lemma completions_dichotomy {B} (cs : list (Completion B)) :
  (exists vs, cs = Return <$> vs) \/ (exists k e, cs !! k = Some (Throw e)).
Proof.
  induction cs as [|[v|e] cs IH].
  - left. exists []. reflexivity.
  - destruct IH as [[vs ->]|(k & e & Hk)].
    + left. exists (v :: vs). reflexivity.
    + right. exists (S k), e. exact Hk.
  - right. exists 0, e. reflexivity.
Qed.

Lemma timingOK_batch {A} env timing (items : list A) i :
  timingOK env timing items = true -> i < length items ->
  settlesAll (timing i) (length (slice i (i + BATCH_SIZE env) items)) = true.
Proof.
  unfold timingOK. rewrite forallb_forall. intros H Hi.
  apply H. apply in_seq. lia.
Qed.

Section BatchScheduler.

Context {A B : Type}.
Variable env : Env.
Variable task : A -> Async B.
Variable issue : A -> World -> World.
Variable outcome : A -> Completion B.
Variable timing : nat -> list nat.

(** A call issues its request and hands back a promise; how the promise
    settles does not depend on the world. *)
Hypothesis task_spec : forall x w, task x w = Some (issue x w, outcome x).

Lemma launch_spec batch w :
  launch task batch w = Some (issueAll issue batch w, outcome <$> batch).
Proof.
  revert w. induction batch as [|x batch IH]; intros w; [reflexivity|].
  simpl. unfold andThen. rewrite task_spec, IH. reflexivity.
Qed.

(** One turn of the loop. *)
Lemma batchLoop_step fuel items i acc w :
  i < length items ->
  batchLoop env task timing (S fuel) items i acc w =
  let batch := take (BATCH_SIZE env) (drop i items) in
  match Promise_all (timing i) (outcome <$> batch) (issueAll issue batch w) with
  | None => None
  | Some (w1, Throw e) => Some (w1, Throw e)
  | Some (w1, Return batchResults) =>
      batchLoop env task timing fuel items (i + BATCH_SIZE env)
        (acc ++ batchResults)
        (if Nat.ltb (i + BATCH_SIZE env) (length items)
         then pause (RATE_LIMIT_DELAY env) w1 else w1)
  end.
Proof.
  intros Hi. cbn [batchLoop].
  apply Nat.ltb_lt in Hi. rewrite Hi.
  unfold slice. replace (i + BATCH_SIZE env - i) with (BATCH_SIZE env) by lia.
  unfold andThen. rewrite launch_spec. unfold bind at 1.
  destruct (Promise_all _ _ _) as [[w1 [rsb|e]]|]; try reflexivity.
  unfold bind.
  destruct (Nat.ltb (i + BATCH_SIZE env) (length items)); reflexivity.
Qed.

Lemma batchLoop_done fuel items i acc w :
  length items <= i ->
  batchLoop env task timing (S fuel) items i acc w = Some (w, Return acc).
Proof.
  intros Hi. cbn [batchLoop].
  apply Nat.ltb_ge in Hi. rewrite Hi. reflexivity.
Qed.

(** Whenever the loop returns, it returns the values of the calls of
    the items, in the order of the items. *)
Lemma batchLoop_sound items fuel :
  forall i acc w w' rs,
    batchLoop env task timing fuel items i acc w = Some (w', Return rs) ->
    exists rs', rs = acc ++ rs' /\
                outcome <$> drop i items = Return <$> rs'.
Proof.
  induction fuel as [|fuel IH]; intros i acc w w' rs H; [discriminate|].
  destruct (decide (i < length items)) as [Hi|Hi].
  - rewrite batchLoop_step in H by exact Hi.
    cbv zeta in H.
    destruct (Promise_all _ _ _) as [[w1 [rsb|e]]|] eqn:Hp; try discriminate.
    apply Promise_all_sound in Hp.
    apply IH in H as (rs' & -> & Hrs').
    exists (rsb ++ rs'). split; [symmetry; apply app_assoc|].
    rewrite <- (take_drop (BATCH_SIZE env) (drop i items)).
    rewrite !fmap_app, drop_drop, Hp, Hrs'. reflexivity.
  - rewrite batchLoop_done in H by lia. injection H as _ <-.
    exists []. rewrite app_nil_r, drop_ge by lia. split; reflexivity.
Qed.

Lemma withBatching_sound items w w' rs :
  withBatching env task timing items w = Some (w', Return rs) ->
  outcome <$> items = Return <$> rs.
Proof.
  unfold withBatching. intros H.
  apply batchLoop_sound in H as (rs' & -> & H). exact H.
Qed.

(** The calls leave the timers and the report file alone. *)
Hypothesis issue_pause :
  forall x ms w, issue x (pause ms w) = pause ms (issue x w).
Hypothesis issue_report : forall x w, reportFile (issue x w) = reportFile w.

Lemma issueAll_pause items ms w :
  issueAll issue items (pause ms w) = pause ms (issueAll issue items w).
Proof.
  revert w. induction items as [|x items IH]; intros w; [reflexivity|].
  simpl. rewrite issue_pause. apply IH.
Qed.

Lemma issueAll_report items w :
  reportFile (issueAll issue items w) = reportFile w.
Proof.
  revert w. induction items as [|x items IH]; intros w; [reflexivity|].
  simpl. rewrite IH. apply issue_report.
Qed.

Lemma issueAll_split n items w :
  issueAll issue items w =
  issueAll issue (drop n items) (issueAll issue (take n items) w).
Proof.
  unfold issueAll. rewrite <- fold_left_app, take_drop. reflexivity.
Qed.

Hypothesis batch_pos : 0 < BATCH_SIZE env.

(** When every call is fulfilled: all the values, in the order of the
    items, and a pause after every batch but the last. *)
Lemma batchLoop_returns items rs :
  outcome <$> items = Return <$> rs ->
  timingOK env timing items = true ->
  forall fuel i acc w,
    length items - i < fuel ->
    batchLoop env task timing fuel items i acc w =
    Some (Nat.iter ((length items - i - 1) / BATCH_SIZE env)
                   (pause (RATE_LIMIT_DELAY env))
                   (issueAll issue (drop i items) w),
          Return (acc ++ drop i rs)).
Proof.
  intros Hrs Htm.
  assert (Hlen : length rs = length items).
  { apply (f_equal length) in Hrs. rewrite !length_fmap in Hrs. lia. }
  induction fuel as [|fuel IH]; intros i acc w Hfuel; [lia|].
  destruct (decide (i < length items)) as [Hi|Hi].
  - rewrite batchLoop_step by exact Hi. cbv zeta.
    rewrite fmap_take, fmap_drop, Hrs, <- fmap_drop, <- fmap_take.
    rewrite Promise_all_returns.
    2:{ pose proof (timingOK_batch env timing items i Htm Hi) as Hs.
        unfold slice in Hs.
        replace (i + BATCH_SIZE env - i) with (BATCH_SIZE env) in Hs by lia.
        rewrite !length_take, !length_drop in *. rewrite Hlen. exact Hs. }
    rewrite IH by lia.
    rewrite <- app_assoc, <- (drop_drop rs), take_drop.
    f_equal. f_equal.
    rewrite (issueAll_split (BATCH_SIZE env) (drop i items) w).
    rewrite drop_drop.
    destruct (Nat.ltb (i + BATCH_SIZE env) (length items)) eqn:Hlt.
    + apply Nat.ltb_lt in Hlt.
      rewrite issueAll_pause, <- Nat.iter_succ_r. f_equal.
      replace (length items - i - 1)
        with (length items - (i + BATCH_SIZE env) - 1 + 1 * BATCH_SIZE env)
        by lia.
      rewrite Nat.div_add by lia. lia.
    + apply Nat.ltb_ge in Hlt.
      rewrite (Nat.div_small (length items - i - 1)) by lia.
      replace (length items - (i + BATCH_SIZE env) - 1) with 0 by lia.
      rewrite Nat.Div0.div_0_l. reflexivity.
  - rewrite batchLoop_done by lia.
    rewrite !drop_ge by lia.
    replace (length items - i - 1) with 0 by lia.
    rewrite Nat.Div0.div_0_l. rewrite app_nil_r. reflexivity.
Qed.

(** When some call is rejected: the run is rejected, with the reason of
    a rejected call, and the report file is as it was. *)
Lemma batchLoop_throws items :
  timingOK env timing items = true ->
  forall fuel i acc w k e,
    length items - i < fuel ->
    i <= k -> (outcome <$> items) !! k = Some (Throw e) ->
    exists w' e',
      batchLoop env task timing fuel items i acc w = Some (w', Throw e') /\
      reportFile w' = reportFile w /\
      Throw e' ∈ outcome <$> items.
Proof.
  intros Htm.
  induction fuel as [|fuel IH]; intros i acc w k e Hfuel Hik Hk; [lia|].
  pose proof (lookup_lt_Some _ _ _ Hk) as Hklt. rewrite length_fmap in Hklt.
  assert (Hi : i < length items) by lia.
  rewrite batchLoop_step by exact Hi. cbv zeta.
  set (batch := take (BATCH_SIZE env) (drop i items)).
  assert (Hs : settlesAll (timing i) (length (outcome <$> batch)) = true).
  { pose proof (timingOK_batch env timing items i Htm Hi) as Hs.
    unfold slice in Hs.
    replace (i + BATCH_SIZE env - i) with (BATCH_SIZE env) in Hs by lia.
    rewrite length_fmap. exact Hs. }
  assert (Hsub : forall c, c ∈ outcome <$> batch -> c ∈ outcome <$> items).
  { intros c Hc. unfold batch in Hc. rewrite fmap_take, fmap_drop in Hc.
    apply list_elem_of_lookup in Hc as [j Hj].
    apply lookup_take_Some in Hj as [Hj _]. rewrite lookup_drop in Hj.
    apply list_elem_of_lookup. eauto. }
  destruct (completions_dichotomy (outcome <$> batch))
    as [[vs Hvs]|(j & e1 & Hj)].
  - rewrite Hvs. rewrite Hvs, length_fmap in Hs.
    rewrite Promise_all_returns by exact Hs.
    assert (Hk' : i + BATCH_SIZE env <= k).
    { destruct (decide (i + BATCH_SIZE env <= k)) as [?|Hn]; [assumption|].
      exfalso.
      assert (Hb : (outcome <$> batch) !! (k - i) = Some (Throw e)).
      { unfold batch. rewrite fmap_take, fmap_drop.
        rewrite lookup_take_lt by lia. rewrite lookup_drop.
        replace (i + (k - i)) with k by lia. exact Hk. }
      rewrite Hvs, list_lookup_fmap in Hb.
      destruct (vs !! (k - i)); discriminate. }
    destruct (IH (i + BATCH_SIZE env) (acc ++ vs)
                (if Nat.ltb (i + BATCH_SIZE env) (length items)
                 then pause (RATE_LIMIT_DELAY env) (issueAll issue batch w)
                 else issueAll issue batch w) k e)
      as (w' & e' & Hrun & Hrep & Hin); [lia|exact Hk'|exact Hk|].
    exists w', e'. split; [exact Hrun|]. split; [|exact Hin].
    rewrite Hrep. destruct (Nat.ltb _ _); simpl; apply issueAll_report.
  - destruct (Promise_all_throws (outcome <$> batch) (timing i)
                (issueAll issue batch w) j e1 Hs Hj) as (e' & -> & Hin).
    exists (issueAll issue batch w), e'.
    split; [reflexivity|]. split; [apply issueAll_report|]. auto.
Qed.

Lemma withBatching_returns items rs w :
  outcome <$> items = Return <$> rs ->
  timingOK env timing items = true ->
  withBatching env task timing items w =
  Some (Nat.iter (pausesOf env (length items)) (pause (RATE_LIMIT_DELAY env))
                 (issueAll issue items w),
        Return rs).
Proof.
  intros Hrs Htm. unfold withBatching.
  rewrite (batchLoop_returns items rs Hrs Htm) by lia.
  rewrite Nat.sub_0_r, !drop_0. reflexivity.
Qed.

(** With a positive batch size and every promise settling, a batched
    run settles: with all the values and a pause after every batch but
    the last, or with the reason of a rejected call. *)
Lemma withBatching_settles items w :
  timingOK env timing items = true ->
  exists w' c,
    withBatching env task timing items w = Some (w', c) /\
    reportFile w' = reportFile w /\
    match c with
    | Return rs =>
        outcome <$> items = Return <$> rs /\
        w' = Nat.iter (pausesOf env (length items))
                      (pause (RATE_LIMIT_DELAY env))
                      (issueAll issue items w)
    | Throw e => Throw e ∈ outcome <$> items
    end.
Proof.
  intros Htm.
  destruct (completions_dichotomy (outcome <$> items))
    as [[rs Hrs]|(k & e & Hk)].
  - rewrite (withBatching_returns items rs w Hrs Htm).
    eexists _, _. split; [reflexivity|]. split; [|split; [exact Hrs|reflexivity]].
    generalize (pausesOf env (length items)). intros n.
    induction n as [|n IHn]; [apply issueAll_report|].
    rewrite Nat.iter_succ. simpl. exact IHn.
  - unfold withBatching.
    destruct (batchLoop_throws items Htm (S (length items)) 0 [] w k e)
      as (w' & e' & Hrun & Hrep & Hin); [lia|lia|exact Hk|].
    exists w', (Throw e'). auto.
Qed.

End BatchScheduler.

(** ** The two batched stages *)

Lemma embedEntry_spec env entry w :
  embedEntry env entry w = Some (embedIssue entry w, embedOutcome env entry).
Proof.
  unfold embedEntry, generateEmbedding, bind, call_embeddings, embedIssue,
    embedOutcome, embeddingRequestOf.
  destruct (embeddings_create env _) as [response|e]; [|reflexivity].
  destruct (response !! 0); reflexivity.
Qed.

Lemma generateDiffSummary_spec env entryA entryB w :
  generateDiffSummary env entryA entryB w =
  Some (logChat (chatRequestOf entryA entryB) w,
        Return (diffSummaryOf env entryA entryB)).
Proof.
  unfold generateDiffSummary, try_catch, bind, call_chat, diffSummaryOf.
  fold (chatRequestOf entryA entryB).
  destruct (chat_completions_create env _) as [response|e]; [|reflexivity].
  destruct (response !! 0); reflexivity.
Qed.

Lemma summarize_spec env c w :
  summarize env c w = Some (summarizeIssue c w, Return (summaryOf env c)).
Proof.
  unfold summarize, summarizeIssue, summaryOf, identical, bind.
  destruct (Comparison.similarityScore c =? 1)%float; [reflexivity|].
  rewrite generateDiffSummary_spec. reflexivity.
Qed.

Lemma embedOutcome_inv env entry r :
  embedOutcome env entry = Return r ->
  DatasetEntryWithEmbedding.entry r = entry /\
  exists response,
    embeddings_create env (embeddingRequestOf entry) = Return response /\
    response !! 0 = Some (DatasetEntryWithEmbedding.embedding r).
Proof.
  unfold embedOutcome.
  destruct (embeddings_create env _) as [response|e]; [|discriminate].
  destruct (response !! 0) as [v|] eqn:Hv; [|discriminate].
  intros H. injection H as <-. simpl. eauto.
Qed.

Lemma timers_pauses k ms w :
  timers (Nat.iter k (pause ms) w) = timers w ++ replicate k ms.
Proof.
  revert w. induction k as [|k IH]; intros w.
  - simpl. rewrite app_nil_r. reflexivity.
  - rewrite Nat.iter_succ_r, IH. simpl. rewrite <- app_assoc. reflexivity.
Qed.

Lemma requests_pauses k ms w :
  embeddingRequests (Nat.iter k (pause ms) w) = embeddingRequests w /\
  chatRequests (Nat.iter k (pause ms) w) = chatRequests w.
Proof.
  induction k as [|k IH]; [split; reflexivity|].
  rewrite Nat.iter_succ. simpl. exact IH.
Qed.

Lemma issueAll_frame {A X} (f : World -> X) (issue : A -> World -> World) :
  (forall x w, f (issue x w) = f w) ->
  forall items w, f (issueAll issue items w) = f w.
Proof.
  intros Hf items. induction items as [|x items IH]; intros w; [reflexivity|].
  simpl. rewrite IH. apply Hf.
Qed.

Lemma timers_summarizeIssue c w : timers (summarizeIssue c w) = timers w.
Proof. unfold summarizeIssue. destruct (identical c); reflexivity. Qed.

Lemma chatRequests_summarize comparisons w :
  chatRequests (issueAll summarizeIssue comparisons w) =
  chatRequests w ++ (chatRequestOfComparison <$> differing comparisons).
Proof.
  revert w. induction comparisons as [|c cs IH]; intros w.
  - simpl. rewrite app_nil_r. reflexivity.
  - simpl. rewrite IH. unfold differing, summarizeIssue.
    rewrite filter_cons. destruct (identical c) eqn:Hc.
    + rewrite decide_False by discriminate. reflexivity.
    + rewrite decide_True by reflexivity.
      simpl. rewrite <- app_assoc. reflexivity.
Qed.

Lemma pausesOf_ceil env n :
  0 < BATCH_SIZE env -> 0 < n ->
  Z.of_nat (pausesOf env n)
  = (ceilDiv (Z.of_nat n) (Z.of_nat (BATCH_SIZE env)) - 1)%Z.
Proof.
  intros Hb Hn. unfold pausesOf, ceilDiv.
  rewrite Nat2Z.inj_div, Nat2Z.inj_sub by lia.
  replace (Z.of_nat n + Z.of_nat (BATCH_SIZE env) - 1)%Z
    with (Z.of_nat n - Z.of_nat 1 + 1 * Z.of_nat (BATCH_SIZE env))%Z by lia.
  rewrite Z.div_add by lia. lia.
Qed.

(** [ceilDiv n b] is the ceiling of [n / b]. *)
Lemma ceilDiv_ceiling n b :
  (0 < b)%Z -> (n <= ceilDiv n b * b /\ (ceilDiv n b - 1) * b < n)%Z.
Proof.
  intros Hb. unfold ceilDiv.
  pose proof (Z.div_mod (n + b - 1) b) as Hdm.
  pose proof (Z.mod_pos_bound (n + b - 1) b Hb) as Hm.
  nia.
Qed.

Lemma fmap_Return_inv {A B} (f : A -> B) (items : list A) (rs : list B) :
  (fun x => Return (f x)) <$> items = Return <$> rs -> rs = f <$> items.
Proof.
  revert rs. induction items as [|x items IH]; intros [|r rs] H;
    try discriminate; [reflexivity|].
  rewrite !fmap_cons in H. injection H as <- H.
  rewrite (IH rs H). reflexivity.
Qed.

Lemma embedding_stage_settles env timing entries w :
  0 < BATCH_SIZE env ->
  timingOK env timing entries = true ->
  exists w' c,
    generateEmbeddingsWithBatching env timing entries w = Some (w', c) /\
    reportFile w' = reportFile w /\
    match c with
    | Return rs =>
        embedOutcome env <$> entries = Return <$> rs /\
        w' = Nat.iter (pausesOf env (length entries))
                      (pause (RATE_LIMIT_DELAY env))
                      (issueAll embedIssue entries w)
    | Throw e => Throw e ∈ embedOutcome env <$> entries
    end.
Proof.
  intros Hb Htm.
  apply (withBatching_settles env (embedEntry env) embedIssue (embedOutcome env)
           timing (embedEntry_spec env)); auto.
Qed.

Lemma diff_stage_returns env timing comparisons w :
  0 < BATCH_SIZE env ->
  timingOK env timing comparisons = true ->
  generateDiffSummariesWithBatching env timing comparisons w =
  Some (Nat.iter (pausesOf env (length comparisons))
                 (pause (RATE_LIMIT_DELAY env))
                 (issueAll summarizeIssue comparisons w),
        Return (summaryOf env <$> comparisons)).
Proof.
  intros Hb Htm.
  destruct (withBatching_settles env (summarize env) summarizeIssue
              (fun c => Return (summaryOf env c)) timing (summarize_spec env))
    with (items := comparisons) (w := w) as (w' & c & Hrun & _ & Hc); auto.
  - intros x ms w0. unfold summarizeIssue. destruct (identical x); reflexivity.
  - intros x w0. unfold summarizeIssue. destruct (identical x); reflexivity.
  - unfold generateDiffSummariesWithBatching. rewrite Hrun.
    destruct c as [rs|e].
    + destruct Hc as [Hrs ->]. rewrite (fmap_Return_inv _ _ _ Hrs).
      reflexivity.
    + apply list_elem_of_fmap in Hc as (x & Hx & _). discriminate.
Qed.

Lemma fmap_Return_Forall2 {A B} (outcome : A -> Completion B)
    (items : list A) (rs : list B) :
  outcome <$> items = Return <$> rs ->
  Forall2 (fun x r => outcome x = Return r) items rs.
Proof.
  revert rs. induction items as [|x items IH]; intros [|r rs] H;
    try discriminate; [constructor|].
  rewrite !fmap_cons in H. injection H as Hx H.
  constructor; [exact Hx|exact (IH rs H)].
Qed.

(** * The claims about the batched stages *)

(** C2, as the code has it: for every batch size B >= 1 and every order
    in which the promises of a batch settle, the embedding stage settles;
    when it returns (no call was rejected) the result has one element per
    entry, element i being entry i with the embedding the service
    returned for its text; the diff stage returns one result per
    comparison, element i being the summary of comparison i; and each
    stage awaits ceil(N/B) - 1 pauses of RATE_LIMIT_DELAY when N >= 1,
    and none when N = 0. *)
Theorem batched_stages_in_order env timingE timingD entries comparisons w :
  0 < BATCH_SIZE env ->
  timingOK env timingE entries = true ->
  timingOK env timingD comparisons = true ->
  let pauses (n : nat) : Z :=
    if decide (n = 0) then 0%Z
    else (ceilDiv (Z.of_nat n) (Z.of_nat (BATCH_SIZE env)) - 1)%Z in
  (exists w' c,
     generateEmbeddingsWithBatching env timingE entries w = Some (w', c) /\
     match c with
     | Return results =>
         length results = length entries /\
         Forall2 (fun entry r =>
                    DatasetEntryWithEmbedding.entry r = entry /\
                    exists response,
                      embeddings_create env (embeddingRequestOf entry)
                      = Return response /\
                      response !! 0
                      = Some (DatasetEntryWithEmbedding.embedding r))
                 entries results /\
         exists k, timers w' = timers w ++ replicate k (RATE_LIMIT_DELAY env) /\
                   Z.of_nat k = pauses (length entries)
     | Throw e => Throw e ∈ embedOutcome env <$> entries
     end) /\
  (exists w' results,
     generateDiffSummariesWithBatching env timingD comparisons w
     = Some (w', Return results) /\
     length results = length comparisons /\
     Forall2 (fun c r => r = summaryOf env c) comparisons results /\
     exists k, timers w' = timers w ++ replicate k (RATE_LIMIT_DELAY env) /\
               Z.of_nat k = pauses (length comparisons)).
Proof.
  intros Hb HtE HtD pauses.
  assert (Hp : forall n, Z.of_nat (pausesOf env n) = pauses n).
  { intros n. unfold pauses. destruct (decide (n = 0)) as [->|Hn].
    - unfold pausesOf. simpl. rewrite Nat.Div0.div_0_l. reflexivity.
    - apply pausesOf_ceil; lia. }
  split.
  - destruct (embedding_stage_settles env timingE entries w Hb HtE)
      as (w' & c & Hrun & _ & Hc).
    exists w', c. split; [exact Hrun|].
    destruct c as [results|e]; [|exact Hc].
    destruct Hc as [Hrs ->].
    apply fmap_Return_Forall2 in Hrs.
    split; [symmetry; exact (Forall2_length _ _ _ Hrs)|]. split.
    + eapply Forall2_impl; [exact Hrs|].
      intros entry r Hr. exact (embedOutcome_inv env entry r Hr).
    + exists (pausesOf env (length entries)). split; [|apply Hp].
      rewrite timers_pauses. f_equal.
      apply (issueAll_frame timers embedIssue). reflexivity.
  - rewrite (diff_stage_returns env timingD comparisons w Hb HtD).
    eexists _, _. split; [reflexivity|].
    split; [apply length_fmap|]. split.
    + apply Forall2_fmap_r, Forall_Forall2_diag, Forall_forall. reflexivity.
    + exists (pausesOf env (length comparisons)). split; [|apply Hp].
      rewrite timers_pauses. f_equal.
      apply (issueAll_frame timers summarizeIssue). apply timers_summarizeIssue.
Qed.

Lemma batched_stages_in_order_witness :
  (exists w' results,
     generateEmbeddingsWithBatching (batchesOfTwo chatTalks) lastFirst
       fiveProfiles emptyWorld = Some (w', Return results) /\
     length results = 5 /\ timers w' = [1000; 1000]%Z) /\
  (exists w' results,
     generateDiffSummariesWithBatching (batchesOfTwo chatTalks) lastFirst
       threePairs emptyWorld = Some (w', Return results) /\
     length results = 3 /\ timers w' = [1000]%Z).
Proof.
  destruct (batched_stages_in_order (batchesOfTwo chatTalks) lastFirst
              lastFirst fiveProfiles threePairs emptyWorld)
    as [(w1 & c1 & Hrun1 & Hc1) (w2 & rs2 & Hrun2 & Hlen2 & _ & k2 & Ht2 & Hk2)].
  - simpl. lia.
  - vm_compute. reflexivity.
  - vm_compute. reflexivity.
  - split.
    + destruct c1 as [rs1|e1].
      * destruct Hc1 as (Hlen1 & _ & k1 & Ht1 & Hk1).
        exists w1, rs1. split; [exact Hrun1|]. split; [exact Hlen1|].
        assert (k1 = 2) as -> by (apply Nat2Z.inj; rewrite Hk1; reflexivity).
        exact Ht1.
      * exfalso. vm_compute in Hrun1. discriminate.
    + exists w2, rs2. split; [exact Hrun2|]. split; [exact Hlen2|].
      assert (k2 = 1) as -> by (apply Nat2Z.inj; rewrite Hk2; reflexivity).
      exact Ht2.
Defined.

(** C2 as stated fails on an empty input: the stages return the empty
    sequence without a pause, where ceil(0/10) - 1 is -1.  And the
    embedding stage returns no sequence at all when a call is rejected. *)
Lemma empty_input_has_no_pause :
  generateEmbeddingsWithBatching (shipped embedByName chatTalks [] [])
    lastFirst [] emptyWorld = Some (emptyWorld, Return []) /\
  generateDiffSummariesWithBatching (shipped embedByName chatTalks [] [])
    lastFirst [] emptyWorld = Some (emptyWorld, Return []) /\
  Z.of_nat (length (timers emptyWorld)) = 0%Z /\
  (ceilDiv 0 (Z.of_nat (BATCH_SIZE (shipped embedByName chatTalks [] []))) - 1
   = -1)%Z /\
  generateEmbeddingsWithBatching (shipped embedByName chatTalks [] [])
    lastFirst [profile 9 "X"] emptyWorld
  = Some (logEmbedding (embeddingRequestOf (profile 9 "X")) emptyWorld,
          Throw (ServiceError "rate limited")).
Proof. repeat split. Qed.

(** C3: a comparison whose similarity score is exactly 1 gets the
    summary "No differences" and its call leaves the world as it was: no
    request goes to the completion service.  In a run of the stage, the
    result at its index carries that summary, and the requests sent are
    those of the comparisons whose score is not 1, of which it is not
    one. *)
Theorem identity_skips_completion env timing comparisons w i c :
  0 < BATCH_SIZE env ->
  timingOK env timing comparisons = true ->
  comparisons !! i = Some c ->
  (Comparison.similarityScore c =? 1)%float = true ->
  summarize env c w =
    Some (w, Return (ComparisonResult.make (Comparison.entryA c)
                       (Comparison.match_ c) (Comparison.similarityScore c)
                       (Some "No differences"))) /\
  exists w' results,
    generateDiffSummariesWithBatching env timing comparisons w
    = Some (w', Return results) /\
    (exists r, results !! i = Some r /\
               ComparisonResult.diffSummary r = Some "No differences") /\
    chatRequests w' =
      chatRequests w ++ (chatRequestOfComparison <$> differing comparisons) /\
    c ∉ differing comparisons.
Proof.
  intros Hb Htm Hi Hone. split.
  - rewrite summarize_spec. unfold summarizeIssue, summaryOf, identical.
    rewrite Hone. reflexivity.
  - rewrite (diff_stage_returns env timing comparisons w Hb Htm).
    eexists _, _. split; [reflexivity|]. split; [|split].
    + exists (summaryOf env c). rewrite list_lookup_fmap, Hi.
      split; [reflexivity|]. unfold summaryOf, identical. rewrite Hone.
      reflexivity.
    + destruct (requests_pauses (pausesOf env (length comparisons))
                  (RATE_LIMIT_DELAY env) (issueAll summarizeIssue comparisons w))
        as [_ ->].
      apply chatRequests_summarize.
    + unfold differing. intros Hin. apply list_elem_of_filter in Hin as [Hc _].
      unfold identical in Hc. congruence.
Qed.

Lemma identity_skips_completion_witness :
  summarize (batchesOfTwo chatTalks)
    (Comparison.make (profile 2 "B") (profile 3 "C") 1%float) emptyWorld =
    Some (emptyWorld,
          Return (ComparisonResult.make (profile 2 "B") (profile 3 "C") 1%float
                    (Some "No differences"))) /\
  exists w' results,
    generateDiffSummariesWithBatching (batchesOfTwo chatTalks) lastFirst
      threePairs emptyWorld = Some (w', Return results) /\
    (exists r, results !! 1 = Some r /\
               ComparisonResult.diffSummary r = Some "No differences") /\
    chatRequests w' =
      chatRequests emptyWorld ++
      (chatRequestOfComparison <$> differing threePairs) /\
    Comparison.make (profile 2 "B") (profile 3 "C") 1%float
      ∉ differing threePairs.
Proof.
  apply (identity_skips_completion (batchesOfTwo chatTalks) lastFirst
           threePairs emptyWorld 1).
  - simpl. lia.
  - vm_compute. reflexivity.
  - reflexivity.
  - vm_compute. reflexivity.
Defined.

(** C10: a completion call that succeeds with a response whose first
    choice has no content (null) makes [generateDiffSummary] return
    null, not the error placeholder; the result of a comparison that is
    not an identity then has a null [diffSummary]. *)
Theorem null_content_gives_null_summary env c w rest :
  (Comparison.similarityScore c =? 1)%float = false ->
  chat_completions_create env (chatRequestOfComparison c)
  = Return (None :: rest) ->
  generateDiffSummary env (Comparison.entryA c) (Comparison.match_ c) w
  = Some (logChat (chatRequestOfComparison c) w, Return None) /\
  summarize env c w
  = Some (logChat (chatRequestOfComparison c) w,
          Return (ComparisonResult.make (Comparison.entryA c)
                    (Comparison.match_ c) (Comparison.similarityScore c) None)) /\
  (None : option string) <> Some errorPlaceholder.
Proof.
  intros Hne Hresp. unfold chatRequestOfComparison in *. split; [|split].
  - rewrite generateDiffSummary_spec. unfold diffSummaryOf.
    rewrite Hresp. reflexivity.
  - rewrite summarize_spec.
    unfold summarizeIssue, summaryOf, identical, diffSummaryOf.
    rewrite Hne, Hresp. reflexivity.
  - discriminate.
Qed.

Lemma null_content_gives_null_summary_witness :
  let c := Comparison.make (profile 1 "A") (profile 4 "D") 0.5%float in
  generateDiffSummary (batchesOfTwo chatSilent) (Comparison.entryA c)
    (Comparison.match_ c) emptyWorld
  = Some (logChat (chatRequestOfComparison c) emptyWorld, Return None) /\
  summarize (batchesOfTwo chatSilent) c emptyWorld
  = Some (logChat (chatRequestOfComparison c) emptyWorld,
          Return (ComparisonResult.make (Comparison.entryA c)
                    (Comparison.match_ c) (Comparison.similarityScore c) None)) /\
  (None : option string) <> Some errorPlaceholder.
Proof.
  exact (null_content_gives_null_summary (batchesOfTwo chatSilent)
           (Comparison.make (profile 1 "A") (profile 4 "D") 0.5%float)
           emptyWorld [] eq_refl eq_refl).
Defined.

(** A content that is present, even an empty string, is returned
    trimmed: [??] replaces only null and undefined. *)
Lemma present_content_is_trimmed env entryA entryB w content rest :
  chat_completions_create env (chatRequestOf entryA entryB)
  = Return (Some content :: rest) ->
  generateDiffSummary env entryA entryB w
  = Some (logChat (chatRequestOf entryA entryB) w, Return (Some (trim content))).
Proof.
  intros Hresp. rewrite generateDiffSummary_spec. unfold diffSummaryOf.
  rewrite Hresp. reflexivity.
Qed.

(** * The whole run *)

Lemma embedding_stage_returns env timing entries embedded w :
  0 < BATCH_SIZE env ->
  timingOK env timing entries = true ->
  embedOutcome env <$> entries = Return <$> embedded ->
  generateEmbeddingsWithBatching env timing entries w =
  Some (Nat.iter (pausesOf env (length entries)) (pause (RATE_LIMIT_DELAY env))
                 (issueAll embedIssue entries w),
        Return embedded).
Proof.
  intros Hb Htm Hrs.
  apply (withBatching_returns env (embedEntry env) embedIssue (embedOutcome env)
           timing (embedEntry_spec env)); auto.
Qed.

Lemma embedding_stage_sound env timing entries w w' embedded :
  generateEmbeddingsWithBatching env timing entries w
  = Some (w', Return embedded) ->
  embedOutcome env <$> entries = Return <$> embedded.
Proof.
  apply (withBatching_sound env (embedEntry env) embedIssue (embedOutcome env)
           timing (embedEntry_spec env)).
Qed.

Lemma diff_stage_sound env timing comparisons w w' results :
  generateDiffSummariesWithBatching env timing comparisons w
  = Some (w', Return results) ->
  results = summaryOf env <$> comparisons.
Proof.
  intros H. apply fmap_Return_inv.
  exact (withBatching_sound env (summarize env) summarizeIssue
           (fun c => Return (summaryOf env c)) timing (summarize_spec env)
           comparisons w w' results H).
Qed.

Lemma mapC_inv {A B} (f : A -> Completion B) l ys :
  mapC f l = Return ys -> Forall2 (fun x y => f x = Return y) l ys.
Proof.
  revert ys. induction l as [|x l IH]; intros ys H; simpl in H.
  - injection H as <-. constructor.
  - destruct (f x) as [y|e] eqn:Hx; [|discriminate]. simpl in H.
    destruct (mapC f l) as [ys'|e]; [|discriminate]. simpl in H.
    injection H as <-. constructor; [exact Hx|exact (IH ys' eq_refl)].
Qed.

(** The literal yields an object with the five fields of the entry and
    without its embedding. *)
Lemma fiveFields_plain e :
  fiveFields e = Plain (DatasetEntryWithEmbedding.entry e).
Proof. destruct e as [[] ?]. reflexivity. Qed.

Lemma compareEntry_inv env embeddedB entryA c :
  compareEntry env embeddedB entryA = Return c ->
  Comparison.entryA c = DatasetEntryWithEmbedding.entry entryA /\
  exists m, m ∈ embeddedB /\
            Comparison.match_ c = DatasetEntryWithEmbedding.entry m /\
            Comparison.similarityScore c =
              cosineSimilarity env
                (DatasetEntryWithEmbedding.embedding entryA)
                (DatasetEntryWithEmbedding.embedding m).
Proof.
  unfold compareEntry.
  destruct (findBestMatch env entryA embeddedB) as [r|e] eqn:Hr; [|discriminate].
  simpl. intros H. injection H as <-. simpl. rewrite !fiveFields_plain.
  destruct (findBestMatch_returns_inv env entryA embeddedB r Hr)
    as (Hin & Hs & _).
  split; [reflexivity|]. exists (MatchResult.match_ r). auto.
Qed.

(** The run, stage by stage, when it reaches the end. *)
Lemma compareDatasets_inv env tm w w' :
  compareDatasets env tm w = Some (w', Return tt) ->
  exists datasetA datasetB embeddedA embeddedB comparisons,
    read_datasetA env = Return datasetA /\
    read_datasetB env = Return datasetB /\
    embedOutcome env <$> datasetA = Return <$> embeddedA /\
    embedOutcome env <$> datasetB = Return <$> embeddedB /\
    mapC (compareEntry env embeddedB) embeddedA = Return comparisons /\
    reportFile w' =
      Some (ComparisonReport.make (Date_toISOString env)
              (length (summaryOf env <$> comparisons))
              (summaryOf env <$> comparisons)).
Proof.
  unfold compareDatasets, loadDatasets, bind, settled, ret, writeFile.
  destruct (read_datasetA env) as [datasetA|e]; [|discriminate].
  destruct (read_datasetB env) as [datasetB|e]; [|discriminate].
  destruct (generateEmbeddingsWithBatching env (timingA tm) datasetA w)
    as [[w1 [embeddedA|e]]|] eqn:HA; try discriminate.
  destruct (generateEmbeddingsWithBatching env (timingB tm) datasetB w1)
    as [[w2 [embeddedB|e]]|] eqn:HB; try discriminate.
  destruct (mapC (compareEntry env embeddedB) embeddedA)
    as [comparisons|e] eqn:HC; [|discriminate].
  destruct (generateDiffSummariesWithBatching env (timingDiff tm) comparisons w2)
    as [[w3 [results|e]]|] eqn:HD; try discriminate.
  intros H. injection H as <-.
  apply embedding_stage_sound in HA, HB. apply diff_stage_sound in HD.
  subst results.
  exists datasetA, datasetB, embeddedA, embeddedB, comparisons.
  repeat split; auto.
Qed.

(** The run, when nothing fails before the diff stage. *)
Lemma compareDatasets_runs env tm w datasetA datasetB embeddedA embeddedB
    comparisons :
  0 < BATCH_SIZE env ->
  read_datasetA env = Return datasetA ->
  read_datasetB env = Return datasetB ->
  embedOutcome env <$> datasetA = Return <$> embeddedA ->
  embedOutcome env <$> datasetB = Return <$> embeddedB ->
  mapC (compareEntry env embeddedB) embeddedA = Return comparisons ->
  timingOK env (timingA tm) datasetA = true ->
  timingOK env (timingB tm) datasetB = true ->
  timingOK env (timingDiff tm) comparisons = true ->
  exists w',
    compareDatasets env tm w = Some (w', Return tt) /\
    reportFile w' =
      Some (ComparisonReport.make (Date_toISOString env) (length comparisons)
              (summaryOf env <$> comparisons)).
Proof.
  intros Hb HrA HrB HA HB HC HtA HtB HtD.
  unfold compareDatasets, loadDatasets, bind, settled, ret, writeFile.
  rewrite HrA, HrB.
  rewrite (embedding_stage_returns env _ datasetA embeddedA w Hb HtA HA).
  rewrite (embedding_stage_returns env _ datasetB embeddedB _ Hb HtB HB).
  rewrite HC.
  rewrite (diff_stage_returns env _ comparisons _ Hb HtD).
  eexists. split; [reflexivity|]. simpl. rewrite length_fmap. reflexivity.
Qed.

Lemma Throw_not_in_returns {A} (e : JsError) (vs : list A) :
  Throw e ∈ Return <$> vs -> False.
Proof.
  intros H. apply list_elem_of_fmap in H as (v & Hv & _). discriminate.
Qed.

Lemma embedding_stage_throws env timing entries entry err w :
  0 < BATCH_SIZE env ->
  timingOK env timing entries = true ->
  entry ∈ entries ->
  embeddings_create env (embeddingRequestOf entry) = Throw err ->
  exists w' e,
    generateEmbeddingsWithBatching env timing entries w = Some (w', Throw e) /\
    Throw e ∈ embedOutcome env <$> entries /\
    reportFile w' = reportFile w.
Proof.
  intros Hb Htm Hin Herr.
  destruct (embedding_stage_settles env timing entries w Hb Htm)
    as (w' & c & Hrun & Hrep & Hc).
  destruct c as [rs|e].
  - exfalso. destruct Hc as [Hrs _].
    apply (Throw_not_in_returns err rs). rewrite <- Hrs.
    apply list_elem_of_fmap. exists entry. split; [|exact Hin].
    unfold embedOutcome. rewrite Herr. reflexivity.
  - exists w', e. auto.
Qed.

(** C5: when the embedding call of an entry is rejected,
    [generateEmbedding] is rejected with the same reason, every batched
    run over entries that include it is rejected with the reason of a
    rejected call, and the whole run is rejected and leaves the report
    file as it was. *)
Theorem embedding_failure_aborts env tm w datasetA datasetB entry err :
  0 < BATCH_SIZE env ->
  read_datasetA env = Return datasetA ->
  read_datasetB env = Return datasetB ->
  timingOK env (timingA tm) datasetA = true ->
  timingOK env (timingB tm) datasetB = true ->
  entry ∈ datasetA ++ datasetB ->
  embeddings_create env (embeddingRequestOf entry) = Throw err ->
  (forall w0,
     generateEmbedding env (createTextRepresentation entry) w0
     = Some (logEmbedding (embeddingRequestOf entry) w0, Throw err)) /\
  (forall timing entries w0,
     entry ∈ entries -> timingOK env timing entries = true ->
     exists w1 e,
       generateEmbeddingsWithBatching env timing entries w0
       = Some (w1, Throw e) /\
       Throw e ∈ embedOutcome env <$> entries /\
       reportFile w1 = reportFile w0) /\
  exists w' e,
    compareDatasets env tm w = Some (w', Throw e) /\
    reportFile w' = reportFile w.
Proof.
  intros Hb HrA HrB HtA HtB Hin Herr. split; [|split].
  - intros w0. unfold generateEmbedding, bind, call_embeddings.
    fold (embeddingRequestOf entry). rewrite Herr. reflexivity.
  - intros timing entries w0 Hin' Htm.
    exact (embedding_stage_throws env timing entries entry err w0
             Hb Htm Hin' Herr).
  - unfold compareDatasets, loadDatasets, bind, settled, ret.
    rewrite HrA, HrB.
    destruct (embedding_stage_settles env (timingA tm) datasetA w Hb HtA)
      as (w1 & c1 & Hrun1 & Hrep1 & Hc1).
    rewrite Hrun1. destruct c1 as [embeddedA|e1]; [|eauto].
    destruct Hc1 as [HA _].
    assert (HinB : entry ∈ datasetB).
    { apply elem_of_app in Hin as [HinA|HinB]; [|exact HinB].
      exfalso. apply (Throw_not_in_returns err embeddedA). rewrite <- HA.
      apply list_elem_of_fmap. exists entry. split; [|exact HinA].
      unfold embedOutcome. rewrite Herr. reflexivity. }
    destruct (embedding_stage_throws env (timingB tm) datasetB entry err w1
                Hb HtB HinB Herr) as (w2 & e2 & Hrun2 & _ & Hrep2).
    rewrite Hrun2. exists w2, e2. split; [reflexivity|congruence].
Qed.

Lemma embedding_failure_aborts_witness :
  exists w',
    compareDatasets runEmbedFails reversed emptyWorld
    = Some (w', Throw (ServiceError "rate limited")) /\
    reportFile w' = None.
Proof.
  destruct (embedding_failure_aborts runEmbedFails reversed emptyWorld
              [profile 1 "A"] [profile 2 "B"; profile 9 "X"] (profile 9 "X")
              (ServiceError "rate limited"))
    as (_ & _ & w' & e & Hrun & Hrep).
  - simpl. lia.
  - reflexivity.
  - reflexivity.
  - vm_compute. reflexivity.
  - vm_compute. reflexivity.
  - apply elem_of_app. right. right. left.
  - vm_compute. reflexivity.
  - exists w'. split; [|exact Hrep].
    rewrite Hrun. vm_compute in Hrun.
    injection Hrun as _ <-. reflexivity.
Defined.

(** C4: a rejected completion call is caught inside
    [generateDiffSummary], which returns the text "Error generating diff
    summary"; when nothing fails before the diff stage the run reaches
    its end and writes the report, whatever the completion service does,
    and in the report every pair whose score is not 1 and whose
    completion call was rejected carries that text. *)
Theorem completion_failure_is_substituted env tm w datasetA datasetB
    embeddedA embeddedB comparisons :
  0 < BATCH_SIZE env ->
  read_datasetA env = Return datasetA ->
  read_datasetB env = Return datasetB ->
  embedOutcome env <$> datasetA = Return <$> embeddedA ->
  embedOutcome env <$> datasetB = Return <$> embeddedB ->
  mapC (compareEntry env embeddedB) embeddedA = Return comparisons ->
  timingOK env (timingA tm) datasetA = true ->
  timingOK env (timingB tm) datasetB = true ->
  timingOK env (timingDiff tm) comparisons = true ->
  (forall entryA entryB w0 err,
     chat_completions_create env (chatRequestOf entryA entryB) = Throw err ->
     generateDiffSummary env entryA entryB w0
     = Some (logChat (chatRequestOf entryA entryB) w0,
             Return (Some errorPlaceholder))) /\
  exists w' report,
    compareDatasets env tm w = Some (w', Return tt) /\
    reportFile w' = Some report /\
    length (ComparisonReport.results report) = length comparisons /\
    forall i c err,
      comparisons !! i = Some c ->
      (Comparison.similarityScore c =? 1)%float = false ->
      chat_completions_create env (chatRequestOfComparison c) = Throw err ->
      exists r,
        ComparisonReport.results report !! i = Some r /\
        ComparisonResult.entryA r = Comparison.entryA c /\
        ComparisonResult.match_ r = Comparison.match_ c /\
        ComparisonResult.diffSummary r = Some errorPlaceholder.
Proof.
  intros Hb HrA HrB HA HB HC HtA HtB HtD. split.
  - intros entryA entryB w0 err Herr.
    rewrite generateDiffSummary_spec. unfold diffSummaryOf.
    rewrite Herr. reflexivity.
  - destruct (compareDatasets_runs env tm w datasetA datasetB embeddedA
                embeddedB comparisons Hb HrA HrB HA HB HC HtA HtB HtD)
      as (w' & Hrun & Hrep).
    eexists w', _. split; [exact Hrun|]. split; [exact Hrep|].
    simpl. split; [apply length_fmap|].
    intros i c err Hi Hne Herr. exists (summaryOf env c).
    rewrite list_lookup_fmap, Hi. split; [reflexivity|].
    unfold summaryOf, identical, diffSummaryOf. rewrite Hne. simpl.
    unfold chatRequestOfComparison in Herr. rewrite Herr. auto.
Qed.

Lemma completion_failure_is_substituted_witness :
  exists w' report,
    compareDatasets runChatDown reversed emptyWorld = Some (w', Return tt) /\
    reportFile w' = Some report /\
    ComparisonResult.diffSummary <$> ComparisonReport.results report
    = [Some errorPlaceholder; Some "No differences"].
Proof.
  pose (embeddedA := valuesOf (embedOutcome runChatDown <$>
                                 [profile 1 "A"; profile 5 "E"])).
  pose (embeddedB := valuesOf (embedOutcome runChatDown <$>
                                 [profile 2 "B"; profile 4 "D"])).
  pose (comparisons :=
          valueOr [] (mapC (compareEntry runChatDown embeddedB) embeddedA)).
  destruct (completion_failure_is_substituted runChatDown reversed emptyWorld
              [profile 1 "A"; profile 5 "E"] [profile 2 "B"; profile 4 "D"]
              embeddedA embeddedB comparisons)
    as (_ & w' & report & Hrun & Hrep & _).
  - simpl. lia.
  - reflexivity.
  - reflexivity.
  - vm_compute. reflexivity.
  - vm_compute. reflexivity.
  - vm_compute. reflexivity.
  - vm_compute. reflexivity.
  - vm_compute. reflexivity.
  - vm_compute. reflexivity.
  - exists w', report. split; [exact Hrun|]. split; [exact Hrep|].
    vm_compute in Hrun. injection Hrun as <-.
    vm_compute in Hrep. injection Hrep as <-. reflexivity.
Defined.

(** C8: when the run writes its report, the count of the report is the
    length of its results, and there is one result per entry of the
    source dataset, in the order of the dataset.  The two entries of a
    result are objects with exactly the five fields of the source entry
    and of an entry of the target dataset: neither has an [embedding]
    property. *)
Theorem report_mirrors_source env tm w w' :
  compareDatasets env tm w = Some (w', Return tt) ->
  exists report datasetA datasetB,
    reportFile w' = Some report /\
    read_datasetA env = Return datasetA /\
    read_datasetB env = Return datasetB /\
    ComparisonReport.totalComparisons report
    = length (ComparisonReport.results report) /\
    length (ComparisonReport.results report) = length datasetA /\
    Forall2 (fun source r =>
               ComparisonResult.entryA r = Plain source /\
               embeddingOf (ComparisonResult.entryA r) = None /\
               exists target,
                 target ∈ datasetB /\
                 ComparisonResult.match_ r = Plain target /\
                 embeddingOf (ComparisonResult.match_ r) = None)
            datasetA (ComparisonReport.results report).
Proof.
  intros H.
  destruct (compareDatasets_inv env tm w w' H)
    as (datasetA & datasetB & embeddedA & embeddedB & comparisons &
        HrA & HrB & HA & HB & HC & Hrep).
  eexists _, datasetA, datasetB. split; [exact Hrep|]. simpl.
  apply fmap_Return_Forall2 in HA, HB. apply mapC_inv in HC.
  assert (HF : Forall2 (fun source c =>
                          Comparison.entryA c = Plain source /\
                          embeddingOf (Comparison.entryA c) = None /\
                          exists target,
                            target ∈ datasetB /\
                            Comparison.match_ c = Plain target /\
                            embeddingOf (Comparison.match_ c) = None)
                       datasetA comparisons).
  { eapply Forall2_trans; [|exact HA|exact HC].
    intros source ea c Hea Hc. simpl in *.
    apply embedOutcome_inv in Hea as [Hentry _].
    apply compareEntry_inv in Hc as (HcA & m & Hm & HcB & _).
    rewrite HcA, HcB, Hentry. split; [reflexivity|]. split; [reflexivity|].
    apply list_elem_of_lookup in Hm as [j Hj].
    destruct (Forall2_lookup_r _ _ _ _ _ HB Hj) as (target & Ht & Hout).
    apply embedOutcome_inv in Hout as [Hentry' _].
    exists target. rewrite Hentry'.
    split; [|split; reflexivity]. apply list_elem_of_lookup. eauto. }
  repeat split; auto.
  - rewrite length_fmap. symmetry. exact (Forall2_length _ _ _ HF).
  - apply Forall2_fmap_r. exact HF.
Qed.

Lemma report_mirrors_source_witness :
  exists w' report,
    compareDatasets runChatDown reversed emptyWorld = Some (w', Return tt) /\
    reportFile w' = Some report /\
    ComparisonReport.totalComparisons report = 2 /\
    ComparisonResult.entryA <$> ComparisonReport.results report
    = [Plain (profile 1 "A"); Plain (profile 5 "E")] /\
    embeddingOf <$>
      (ComparisonResult.match_ <$> ComparisonReport.results report)
    = [None; None].
Proof.
  assert (Hrun : exists w', compareDatasets runChatDown reversed emptyWorld
                            = Some (w', Return tt)).
  { eexists. vm_compute. reflexivity. }
  destruct Hrun as [w' Hrun].
  destruct (report_mirrors_source runChatDown reversed emptyWorld w' Hrun)
    as (report & datasetA & datasetB & Hrep & _).
  exists w', report. split; [exact Hrun|]. split; [exact Hrep|].
  vm_compute in Hrun. injection Hrun as <-.
  vm_compute in Hrep. injection Hrep as <-. repeat split.
Defined.

(* ================================================================== *)
(** * Further properties *)

(** ** More on comparisons *)

Lemma SFcompare_Eq_Lt_trans x y z :
  SFcompare x y = Some Eq -> SFcompare y z = Some Lt ->
  SFcompare x z = Some Lt.
Proof.
  destruct x as [sx|sx| |sx mx ex], y as [sy|sy| |sy my ey],
           z as [sz|sz| |sz mz ez];
    simpl; try discriminate;
    repeat match goal with s : bool |- _ => destruct s end;
    try discriminate; try reflexivity.
  all: intros H1 H2; f_equal.
  all: destruct (Z.compare_spec ex ey); try discriminate; subst.
  all: change (Pos.compare_cont Eq ?a ?b) with (Pos.compare a b) in *.
  all: destruct (Pos.compare_spec mx my); try discriminate; subst.
  all: injection H2 as H2; exact H2.
Qed.

Lemma eqb_ltb_trans x y z :
  (x =? y)%float = true -> (y <? z)%float = true -> (x <? z)%float = true.
Proof.
  rewrite FloatAxioms.eqb_spec, !FloatAxioms.ltb_spec. unfold SFeqb, SFltb.
  destruct (SFcompare (Prim2SF x) (Prim2SF y)) as [[]|] eqn:E1;
    try discriminate.
  destruct (SFcompare (Prim2SF y) (Prim2SF z)) as [[]|] eqn:E2;
    try discriminate.
  intros _ _. rewrite (SFcompare_Eq_Lt_trans _ _ _ E1 E2). reflexivity.
Qed.

Lemma ltb_eqb_false x y : (x <? y)%float = true -> (x =? y)%float = false.
Proof.
  rewrite FloatAxioms.eqb_spec, FloatAxioms.ltb_spec. unfold SFeqb, SFltb.
  destruct (SFcompare (Prim2SF x) (Prim2SF y)) as [[]|]; try discriminate.
  reflexivity.
Qed.

Lemma nan_eqb_false x y : (x =? x)%float = false -> (x =? y)%float = false.
Proof.
  rewrite !FloatAxioms.eqb_spec. unfold SFeqb.
  destruct (Prim2SF x) as [[]|[]| |s m e]; simpl; try discriminate;
    try reflexivity.
  rewrite Z.compare_refl, Pos.compare_cont_refl. destruct s; discriminate.
Qed.

Lemma ltb_left_not_nan x y : (x <? y)%float = true -> (x =? x)%float = true.
Proof.
  rewrite FloatAxioms.ltb_spec, FloatAxioms.eqb_spec. unfold SFltb, SFeqb.
  destruct (Prim2SF x) as [| | |s m e].
  - reflexivity.
  - destruct s; reflexivity.
  - simpl. discriminate.
  - rewrite SFcompare_refl_finite. reflexivity.
Qed.

(** Nothing that exceeds [y] fails to exceed a smaller [x]. *)
Lemma ltb_false_mono x y z :
  (x <? y)%float = true -> (x <? z)%float = false -> (y <? z)%float = false.
Proof.
  intros Hxy Hxz. destruct (y <? z)%float eqn:Hyz; [|reflexivity].
  rewrite (ltb_trans _ _ _ Hxy Hyz) in Hxz. discriminate.
Qed.

(** ** The matcher returns the first of the best targets *)

Section MatcherBest.

Variable env : Env.
Variable entryA : DatasetEntryWithEmbedding.t.

(** An earlier similarity that the old best score did not exceed is
    below a new, greater best score, unless it is NaN. *)
Lemma below_new_best s x y :
  (s =? s)%float = true -> (s <? x)%float = false -> (s <? y)%float = true ->
  (x <? y)%float = true \/ (x =? x)%float = false.
Proof.
  intros Hs Hsx Hsy. destruct (x =? x)%float eqn:Hx; [left|right; reflexivity].
  destruct (float_trichotomy x s Hx Hs) as [H|[H|H]].
  - exact (ltb_trans _ _ _ H Hsy).
  - exact (eqb_ltb_trans _ _ _ H Hsy).
  - rewrite H in Hsx. discriminate.
Qed.

Lemma bestSoFar_step seen best entryB :
  bestSoFar env entryA seen best ->
  bestSoFar env entryA (seen ++ [entryB])
            (findBestMatch_step env entryA best entryB).
Proof.
  intros Hinv. unfold findBestMatch_step.
  fold (similarityTo env entryA entryB).
  destruct (snd best <? similarityTo env entryA entryB)%float eqn:Hlt.
  - (* the new target becomes the best match *)
    unfold bestSoFar. cbn [fst snd].
    exists (length seen). split; [|split; [reflexivity|]].
    { rewrite lookup_app_r by lia. rewrite Nat.sub_diag. reflexivity. }
    unfold bestSoFar in Hinv.
    destruct (fst best) as [m|].
    + destruct Hinv as (k & Hk & Hs & Hgt & Hmax & Hfirst).
      split; [exact (ltb_trans _ _ _ Hgt Hlt)|]. split.
      * intros b Hb. apply elem_of_app in Hb as [Hb|Hb].
        -- exact (ltb_false_mono _ _ _ Hlt (Hmax b Hb)).
        -- apply list_elem_of_singleton in Hb as ->. apply ltb_irrefl.
      * intros j b Hj Hjb. rewrite lookup_app_l in Hjb by exact Hj.
        assert (Hin : b ∈ seen) by (apply list_elem_of_lookup; eauto).
        exact (below_new_best (snd best) _ _ (ltb_not_nan _ _ Hgt)
                 (Hmax b Hin) Hlt).
    + destruct Hinv as [Hs Hnone]. rewrite Hs in Hlt.
      split; [exact Hlt|]. split.
      * intros b Hb. apply elem_of_app in Hb as [Hb|Hb].
        -- exact (ltb_false_mono _ _ _ Hlt (Hnone b Hb)).
        -- apply list_elem_of_singleton in Hb as ->. apply ltb_irrefl.
      * intros j b Hj Hjb. rewrite lookup_app_l in Hjb by exact Hj.
        assert (Hin : b ∈ seen) by (apply list_elem_of_lookup; eauto).
        exact (below_new_best (-1)%float _ _ eq_refl (Hnone b Hin) Hlt).
  - (* the pair stays as it is *)
    unfold bestSoFar in *. destruct (fst best) as [m|].
    + destruct Hinv as (k & Hk & Hs & Hgt & Hmax & Hfirst).
      exists k. split; [apply lookup_app_l_Some; exact Hk|].
      split; [exact Hs|]. split; [exact Hgt|]. split.
      * intros b Hb. apply elem_of_app in Hb as [Hb|Hb]; [auto|].
        apply list_elem_of_singleton in Hb as ->. exact Hlt.
      * intros j b Hj Hjb.
        rewrite lookup_app_l in Hjb
          by (pose proof (lookup_lt_Some _ _ _ Hk); lia).
        exact (Hfirst j b Hj Hjb).
    + destruct Hinv as [Hs Hnone]. split; [exact Hs|].
      intros b Hb. apply elem_of_app in Hb as [Hb|Hb]; [auto|].
      apply list_elem_of_singleton in Hb as ->. rewrite <- Hs. exact Hlt.
Qed.

Lemma bestSoFar_loop l :
  forall seen best,
    bestSoFar env entryA seen best ->
    bestSoFar env entryA (seen ++ l)
              (fold_left (findBestMatch_step env entryA) l best).
Proof.
  induction l as [|b l IH]; intros seen best Hinv; simpl.
  - rewrite app_nil_r. exact Hinv.
  - rewrite (cons_middle b seen l), app_assoc.
    apply IH, bestSoFar_step, Hinv.
Qed.

Lemma bestSoFar_all targets :
  bestSoFar env entryA targets
    (fold_left (findBestMatch_step env entryA) targets (None, (-1)%float)).
Proof.
  apply (bestSoFar_loop targets [] (None, (-1)%float)).
  split; [reflexivity|]. intros b Hb. inversion Hb.
Qed.

End MatcherBest.

(** X1: when [findBestMatch] returns, the match is the target at some
    index [k] of the sequence, the score is its similarity, no target has
    a similarity that exceeds the score, and no target before [k] has a
    similarity equal to the score: the match is the first of the targets
    of greatest similarity. *)
Theorem findBestMatch_returns_first_best env entryA targets r :
  findBestMatch env entryA targets = Return r ->
  exists k,
    targets !! k = Some (MatchResult.match_ r) /\
    MatchResult.score r = similarityTo env entryA (MatchResult.match_ r) /\
    (forall b, b ∈ targets ->
               (MatchResult.score r <? similarityTo env entryA b)%float = false) /\
    (forall j b, j < k -> targets !! j = Some b ->
                 (similarityTo env entryA b =? MatchResult.score r)%float = false).
Proof.
  unfold findBestMatch. intros H.
  pose proof (bestSoFar_all env entryA targets) as Hinv.
  destruct (fold_left _ targets _) as [[m|] bs]; [|discriminate].
  injection H as <-. unfold bestSoFar in Hinv. cbn [fst snd] in Hinv.
  destruct Hinv as (k & Hk & Hs & _ & Hmax & Hfirst).
  exists k. cbn. repeat split; try assumption.
  intros j b Hj Hjb. destruct (Hfirst j b Hj Hjb) as [Hlt|Hnan].
  - exact (ltb_eqb_false _ _ Hlt).
  - exact (nan_eqb_false _ _ Hnan).
Qed.

Lemma findBestMatch_returns_first_best_witness :
  exists k,
    [west; north; east'; east] !! k = Some east' /\
    1%float = similarityTo (shipped embedByName chatDown [] []) east east' /\
    (forall b, b ∈ [west; north; east'; east] ->
               (1 <? similarityTo (shipped embedByName chatDown [] []) east b)%float
               = false) /\
    (forall j b, j < k -> [west; north; east'; east] !! j = Some b ->
                 (similarityTo (shipped embedByName chatDown [] []) east b =? 1)%float
                 = false).
Proof.
  exact (findBestMatch_returns_first_best (shipped embedByName chatDown [] [])
           east [west; north; east'; east] (MatchResult.make east' 1%float)
           eq_refl).
Defined.

(** X2: [findBestMatch] throws exactly when no target has a similarity
    greater than -1 (in particular when there is no target), and the
    error is then "No match found". *)
Theorem findBestMatch_throws_iff env entryA targets :
  (findBestMatch env entryA targets = Throw (Error "No match found") <->
   forall b, b ∈ targets -> ((-1) <? similarityTo env entryA b)%float = false) /\
  (forall e, findBestMatch env entryA targets = Throw e ->
             e = Error "No match found").
Proof.
  split; [split|].
  - unfold findBestMatch. intros H.
    pose proof (bestSoFar_all env entryA targets) as Hinv.
    destruct (fold_left _ targets _) as [[m|] bs]; [discriminate|].
    exact (proj2 Hinv).
  - intros Hnone. unfold findBestMatch.
    rewrite (findBestMatch_loop_keep env entryA targets (None, (-1)%float) Hnone).
    reflexivity.
  - unfold findBestMatch. intros e H.
    destruct (fold_left _ targets _) as [[m|] bs]; [discriminate|].
    injection H as <-. reflexivity.
Qed.

(** ** Requests and pauses of a batched run *)

Lemma embeddingRequests_embed entries w :
  embeddingRequests (issueAll embedIssue entries w) =
  embeddingRequests w ++ (embeddingRequestOf <$> entries).
Proof.
  revert w. induction entries as [|e entries IH]; intros w.
  - simpl. rewrite app_nil_r. reflexivity.
  - simpl. rewrite IH. simpl. rewrite <- app_assoc. reflexivity.
Qed.

Lemma chatRequests_summarizeIssue_embed entries w :
  chatRequests (issueAll embedIssue entries w) = chatRequests w.
Proof. apply (issueAll_frame chatRequests embedIssue). reflexivity. Qed.

Lemma embeddingRequests_summarize comparisons w :
  embeddingRequests (issueAll summarizeIssue comparisons w)
  = embeddingRequests w.
Proof.
  apply (issueAll_frame embeddingRequests summarizeIssue).
  intros c w0. unfold summarizeIssue. destruct (identical c); reflexivity.
Qed.

Section FailFast.

Context {A B : Type}.
Variable env : Env.
Variable task : A -> Async B.
Variable issue : A -> World -> World.
Variable outcome : A -> Completion B.
Variable timing : nat -> list nat.

Hypothesis task_spec : forall x w, task x w = Some (issue x w, outcome x).
Hypothesis issue_pause :
  forall x ms w, issue x (pause ms w) = pause ms (issue x w).
Hypothesis batch_pos : 0 < BATCH_SIZE env.

(** When the call of item [k] is the first to be rejected, the loop
    stops at the batch of item [k]: the calls of the batches up to that
    one have been issued, with a pause between them, and no other. *)
Lemma batchLoop_first_failure items k e :
  timingOK env timing items = true ->
  (outcome <$> items) !! k = Some (Throw e) ->
  (forall j c, j < k -> (outcome <$> items) !! j = Some c ->
               exists v, c = Return v) ->
  forall fuel i acc w,
    length items - i < fuel -> i <= k ->
    exists e',
      batchLoop env task timing fuel items i acc w =
      Some (Nat.iter ((k - i) / BATCH_SIZE env) (pause (RATE_LIMIT_DELAY env))
              (issueAll issue
                 (take (((k - i) / BATCH_SIZE env + 1) * BATCH_SIZE env)
                       (drop i items)) w),
            Throw e') /\
      Throw e' ∈ outcome <$> items.
Proof.
  intros Htm Hk Hbefore.
  pose proof (lookup_lt_Some _ _ _ Hk) as Hklt. rewrite length_fmap in Hklt.
  induction fuel as [|fuel IH]; intros i acc w Hfuel Hik; [lia|].
  assert (Hi : i < length items) by lia.
  rewrite (batchLoop_step env task issue outcome timing task_spec)
    by exact Hi.
  cbv zeta. set (batch := take (BATCH_SIZE env) (drop i items)).
  assert (Hs : settlesAll (timing i) (length (outcome <$> batch)) = true).
  { pose proof (timingOK_batch env timing items i Htm Hi) as Hs.
    unfold slice in Hs.
    replace (i + BATCH_SIZE env - i) with (BATCH_SIZE env) in Hs by lia.
    rewrite length_fmap. exact Hs. }
  assert (Hlook : forall n, n < BATCH_SIZE env ->
                    (outcome <$> batch) !! n = (outcome <$> items) !! (i + n)).
  { intros n Hn. unfold batch. rewrite fmap_take, fmap_drop.
    rewrite lookup_take_lt by exact Hn. apply lookup_drop. }
  assert (Hsub : forall c, c ∈ outcome <$> batch -> c ∈ outcome <$> items).
  { intros c Hc. apply list_elem_of_lookup in Hc as [n Hn].
    assert (n < BATCH_SIZE env).
    { apply lookup_lt_Some in Hn. unfold batch in Hn.
      rewrite length_fmap, length_take in Hn. lia. }
    rewrite Hlook in Hn by assumption. apply list_elem_of_lookup. eauto. }
  destruct (decide (k < i + BATCH_SIZE env)) as [Hin|Hout].
  - (* the batch of item k *)
    assert (Hb : (outcome <$> batch) !! (k - i) = Some (Throw e)).
    { rewrite Hlook by lia. replace (i + (k - i)) with k by lia. exact Hk. }
    destruct (Promise_all_throws (outcome <$> batch) (timing i)
                (issueAll issue batch w) (k - i) e Hs Hb) as (e' & -> & He').
    exists e'. split; [|auto].
    rewrite (Nat.div_small (k - i)) by lia. simpl.
    rewrite Nat.add_0_r. reflexivity.
  - (* an earlier batch: all its calls are fulfilled *)
    destruct (completions_dichotomy (outcome <$> batch))
      as [[vs Hvs]|(n & e1 & Hn)].
    2:{ exfalso.
        assert (n < BATCH_SIZE env).
        { apply lookup_lt_Some in Hn. unfold batch in Hn.
          rewrite length_fmap, length_take in Hn. lia. }
        rewrite Hlook in Hn by assumption.
        destruct (Hbefore (i + n) (Throw e1)) as [v Hv]; [lia|exact Hn|].
        discriminate. }
    rewrite Hvs. rewrite Hvs, length_fmap in Hs.
    rewrite Promise_all_returns by exact Hs.
    assert (Hlt : Nat.ltb (i + BATCH_SIZE env) (length items) = true)
      by (apply Nat.ltb_lt; lia).
    rewrite Hlt.
    destruct (IH (i + BATCH_SIZE env) (acc ++ vs)
                (pause (RATE_LIMIT_DELAY env) (issueAll issue batch w)))
      as (e' & -> & He'); [lia|lia|].
    exists e'. split; [|exact He'].
    f_equal. f_equal.
    replace (k - i)
      with (k - (i + BATCH_SIZE env) + 1 * BATCH_SIZE env) by lia.
    rewrite Nat.div_add by lia.
    set (q := (k - (i + BATCH_SIZE env)) / BATCH_SIZE env).
    rewrite (issueAll_pause issue issue_pause), <- Nat.iter_succ_r.
    replace (q + 1) with (S q) by lia. f_equal.
    unfold issueAll. rewrite <- fold_left_app. f_equal.
    unfold batch. rewrite <- drop_drop.
    replace ((S q + 1) * BATCH_SIZE env)
      with (BATCH_SIZE env + (q + 1) * BATCH_SIZE env) by lia.
    rewrite <- take_take_drop.
    replace (S q) with (q + 1) by lia. reflexivity.
Qed.

End FailFast.

(** X3: when the embedding stage returns, it has sent exactly one
    embedding request per entry, in the order of the entries, each with
    the model "text-embedding-3-small" and the text representation of its
    entry; it has sent no completion request and has not touched the
    report file. *)
Theorem embedding_stage_requests env timing entries w w' embedded :
  0 < BATCH_SIZE env ->
  timingOK env timing entries = true ->
  generateEmbeddingsWithBatching env timing entries w
  = Some (w', Return embedded) ->
  embeddingRequests w' =
    embeddingRequests w ++
    ((fun entry => EmbeddingRequest.make "text-embedding-3-small"
                     (createTextRepresentation entry)) <$> entries) /\
  chatRequests w' = chatRequests w /\
  reportFile w' = reportFile w.
Proof.
  intros Hb Htm Hrun.
  pose proof (embedding_stage_sound env timing entries w w' embedded Hrun)
    as Hrs.
  rewrite (embedding_stage_returns env timing entries embedded w Hb Htm Hrs)
    in Hrun.
  injection Hrun as <-.
  destruct (requests_pauses (pausesOf env (length entries))
              (RATE_LIMIT_DELAY env) (issueAll embedIssue entries w))
    as [-> ->].
  split; [apply embeddingRequests_embed|].
  split; [apply chatRequests_summarizeIssue_embed|].
  generalize (pausesOf env (length entries)). intros n.
  induction n as [|n IHn].
  - apply (issueAll_frame reportFile embedIssue). reflexivity.
  - rewrite Nat.iter_succ. exact IHn.
Qed.

Lemma embedding_stage_requests_witness :
  exists w' embedded,
    generateEmbeddingsWithBatching (batchesOfTwo chatTalks) lastFirst
      fiveProfiles emptyWorld = Some (w', Return embedded) /\
    EmbeddingRequest.input <$> embeddingRequests w'
    = createTextRepresentation <$> fiveProfiles /\
    chatRequests w' = [] /\ reportFile w' = None.
Proof.
  assert (Hrun : exists w' embedded,
             generateEmbeddingsWithBatching (batchesOfTwo chatTalks) lastFirst
               fiveProfiles emptyWorld = Some (w', Return embedded)).
  { eexists _, _. vm_compute. reflexivity. }
  destruct Hrun as (w' & embedded & Hrun).
  destruct (embedding_stage_requests (batchesOfTwo chatTalks) lastFirst
              fiveProfiles emptyWorld w' embedded) as (Hreq & Hchat & Hrep).
  - simpl. lia.
  - vm_compute. reflexivity.
  - exact Hrun.
  - exists w', embedded. split; [exact Hrun|].
    split; [rewrite Hreq; reflexivity|]. split; assumption.
Defined.

Lemma reportFile_pauses k ms w :
  reportFile (Nat.iter k (pause ms) w) = reportFile w.
Proof.
  induction k as [|k IH]; [reflexivity|]. rewrite Nat.iter_succ. exact IH.
Qed.

(** The first failing call of the embedding stage. *)
Lemma embedding_stage_first_failure env timing entries w k entry err :
  0 < BATCH_SIZE env ->
  timingOK env timing entries = true ->
  entries !! k = Some entry ->
  embedOutcome env entry = Throw err ->
  (forall j earlier, j < k -> entries !! j = Some earlier ->
                     exists r, embedOutcome env earlier = Return r) ->
  exists w' e,
    generateEmbeddingsWithBatching env timing entries w = Some (w', Throw e) /\
    embeddingRequests w' =
      embeddingRequests w ++
      (embeddingRequestOf <$>
         take ((k / BATCH_SIZE env + 1) * BATCH_SIZE env) entries) /\
    timers w' =
      timers w ++ replicate (k / BATCH_SIZE env) (RATE_LIMIT_DELAY env) /\
    chatRequests w' = chatRequests w /\
    reportFile w' = reportFile w.
Proof.
  intros Hb Htm Hk Herr Hbefore.
  destruct (batchLoop_first_failure env (embedEntry env) embedIssue
              (embedOutcome env) timing (embedEntry_spec env)
              (fun x ms w0 => eq_refl) Hb entries k err Htm)
    with (fuel := S (length entries)) (i := 0)
         (acc := @nil DatasetEntryWithEmbedding.t) (w := w)
    as (e' & Hrun & _).
  - rewrite list_lookup_fmap, Hk. simpl. rewrite Herr. reflexivity.
  - intros j c Hj Hc. rewrite list_lookup_fmap in Hc.
    destruct (entries !! j) as [earlier|] eqn:Hje; [|discriminate].
    injection Hc as <-. exact (Hbefore j earlier Hj Hje).
  - lia.
  - lia.
  - rewrite Nat.sub_0_r, drop_0 in Hrun.
    eexists _, e'. split; [exact Hrun|].
    destruct (requests_pauses (k / BATCH_SIZE env) (RATE_LIMIT_DELAY env)
                (issueAll embedIssue
                   (take ((k / BATCH_SIZE env + 1) * BATCH_SIZE env) entries) w))
      as [-> ->].
    split; [apply embeddingRequests_embed|]. split.
    + rewrite timers_pauses. f_equal.
      apply (issueAll_frame timers embedIssue). reflexivity.
    + split; [apply chatRequests_summarizeIssue_embed|].
      rewrite reportFile_pauses.
      apply (issueAll_frame reportFile embedIssue). reflexivity.
Qed.


(** X4: when the call of entry [k] is the first (in the order of the
    entries) to fail, the embedding stage is rejected in the batch of
    that entry: the requests sent are those of the batches up to and
    including it, one pause was awaited before each batch after the
    first, and no entry of a later batch is requested. *)
Theorem embedding_stage_fail_fast env timing entries w k entry err :
  0 < BATCH_SIZE env ->
  timingOK env timing entries = true ->
  entries !! k = Some entry ->
  embedOutcome env entry = Throw err ->
  (forall j earlier, j < k -> entries !! j = Some earlier ->
                     exists r, embedOutcome env earlier = Return r) ->
  exists w' e,
    generateEmbeddingsWithBatching env timing entries w = Some (w', Throw e) /\
    embeddingRequests w' =
      embeddingRequests w ++
      (embeddingRequestOf <$>
         take ((k / BATCH_SIZE env + 1) * BATCH_SIZE env) entries) /\
    timers w' =
      timers w ++ replicate (k / BATCH_SIZE env) (RATE_LIMIT_DELAY env) /\
    chatRequests w' = chatRequests w.
Proof.
  intros Hb Htm Hk Herr Hbefore.
  destruct (embedding_stage_first_failure env timing entries w k entry err
              Hb Htm Hk Herr Hbefore)
    as (w' & e & Hrun & Hreq & Htimers & Hchat & _).
  exists w', e. auto.
Qed.

Lemma embedding_stage_fail_fast_witness :
  exists w' e,
    generateEmbeddingsWithBatching (batchesOfTwo chatTalks) lastFirst
      profilesWithX emptyWorld = Some (w', Throw e) /\
    embeddingRequests w' =
      embeddingRequestOf <$>
        [profile 1 "A"; profile 2 "B"; profile 9 "X"; profile 4 "D"] /\
    timers w' = [1000%Z] /\
    chatRequests w' = [].
Proof.
  exact (embedding_stage_fail_fast (batchesOfTwo chatTalks) lastFirst
           profilesWithX emptyWorld 2 (profile 9 "X")
           (ServiceError "rate limited")
           ltac:(simpl; lia) eq_refl eq_refl eq_refl
           ltac:(intros [|[|j]] earlier Hj Hl; [| |lia];
                 injection Hl as <-; eexists; reflexivity)).
Defined.

(** ** The whole run, request by request *)

Lemma mapC_length {A B} (f : A -> Completion B) l ys :
  mapC f l = Return ys -> length ys = length l.
Proof.
  intros H. symmetry. exact (Forall2_length _ _ _ (mapC_inv f l ys H)).
Qed.

(** The world at the end of a run in which nothing fails before the
    diff stage. *)
Lemma compareDatasets_runs_world env tm w datasetA datasetB embeddedA embeddedB
    comparisons :
  0 < BATCH_SIZE env ->
  read_datasetA env = Return datasetA ->
  read_datasetB env = Return datasetB ->
  embedOutcome env <$> datasetA = Return <$> embeddedA ->
  embedOutcome env <$> datasetB = Return <$> embeddedB ->
  mapC (compareEntry env embeddedB) embeddedA = Return comparisons ->
  timingOK env (timingA tm) datasetA = true ->
  timingOK env (timingB tm) datasetB = true ->
  timingOK env (timingDiff tm) comparisons = true ->
  exists w',
    compareDatasets env tm w = Some (w', Return tt) /\
    embeddingRequests w' =
      embeddingRequests w ++ (embeddingRequestOf <$> datasetA)
                          ++ (embeddingRequestOf <$> datasetB) /\
    chatRequests w' =
      chatRequests w ++ (chatRequestOfComparison <$> differing comparisons) /\
    length (differing comparisons) <= length datasetA /\
    timers w' =
      timers w ++
      replicate (pausesOf env (length datasetA) + pausesOf env (length datasetB)
                 + pausesOf env (length datasetA))
                (RATE_LIMIT_DELAY env) /\
    reportFile w' =
      Some (ComparisonReport.make (Date_toISOString env) (length datasetA)
              (summaryOf env <$> comparisons)).
Proof.
  intros Hb HrA HrB HA HB HC HtA HtB HtD.
  assert (HlenA : length embeddedA = length datasetA).
  { apply (f_equal length) in HA. rewrite !length_fmap in HA. lia. }
  assert (HlenC : length comparisons = length datasetA).
  { rewrite (mapC_length _ _ _ HC). exact HlenA. }
  unfold compareDatasets, loadDatasets, bind, settled, ret, writeFile.
  rewrite HrA, HrB.
  rewrite (embedding_stage_returns env _ datasetA embeddedA w Hb HtA HA).
  rewrite (embedding_stage_returns env _ datasetB embeddedB _ Hb HtB HB).
  rewrite HC.
  rewrite (diff_stage_returns env _ comparisons _ Hb HtD).
  eexists. split; [reflexivity|]. rewrite HlenC. cbn [embeddingRequests
    chatRequests timers reportFile saveReport].
  repeat match goal with
         | |- context [embeddingRequests (Nat.iter ?k (pause ?ms) ?x)] =>
             rewrite (proj1 (requests_pauses k ms x))
         | |- context [chatRequests (Nat.iter ?k (pause ?ms) ?x)] =>
             rewrite (proj2 (requests_pauses k ms x))
         | |- context [timers (Nat.iter ?k (pause ?ms) ?x)] =>
             rewrite (timers_pauses k ms x)
         | |- context [embeddingRequests (issueAll summarizeIssue ?l ?x)] =>
             rewrite (embeddingRequests_summarize l x)
         | |- context [embeddingRequests (issueAll embedIssue ?l ?x)] =>
             rewrite (embeddingRequests_embed l x)
         | |- context [chatRequests (issueAll summarizeIssue ?l ?x)] =>
             rewrite (chatRequests_summarize l x)
         | |- context [chatRequests (issueAll embedIssue ?l ?x)] =>
             rewrite (chatRequests_summarizeIssue_embed l x)
         | |- context [timers (issueAll summarizeIssue ?l ?x)] =>
             rewrite (issueAll_frame timers summarizeIssue
                        timers_summarizeIssue l x)
         | |- context [timers (issueAll embedIssue ?l ?x)] =>
             rewrite (issueAll_frame timers embedIssue
                        (fun _ _ => eq_refl) l x)
         end.
  split; [rewrite <- app_assoc; reflexivity|].
  split; [reflexivity|]. split.
  - rewrite <- HlenC. unfold differing. apply length_filter.
  - split; [|rewrite length_fmap, HlenC; reflexivity].
    rewrite <- !app_assoc, <- !replicate_add, Nat.add_assoc. reflexivity.
Qed.

(** X5: when nothing fails before the diff stage, the run ends with:
    one embedding request per entry of the first dataset, then one per
    entry of the second, in order; one completion request per pair whose
    score is not 1, in order, and so at most one per source entry; the
    pauses of the three batched runs; and the report.  None of this
    depends on the order in which the promises settle. *)
Theorem run_accounting env tm w datasetA datasetB embeddedA embeddedB
    comparisons :
  0 < BATCH_SIZE env ->
  read_datasetA env = Return datasetA ->
  read_datasetB env = Return datasetB ->
  embedOutcome env <$> datasetA = Return <$> embeddedA ->
  embedOutcome env <$> datasetB = Return <$> embeddedB ->
  mapC (compareEntry env embeddedB) embeddedA = Return comparisons ->
  timingOK env (timingA tm) datasetA = true ->
  timingOK env (timingB tm) datasetB = true ->
  timingOK env (timingDiff tm) comparisons = true ->
  exists w',
    compareDatasets env tm w = Some (w', Return tt) /\
    embeddingRequests w' =
      embeddingRequests w ++ (embeddingRequestOf <$> datasetA)
                          ++ (embeddingRequestOf <$> datasetB) /\
    chatRequests w' =
      chatRequests w ++ (chatRequestOfComparison <$> differing comparisons) /\
    length (differing comparisons) <= length datasetA /\
    timers w' =
      timers w ++
      replicate (pausesOf env (length datasetA) + pausesOf env (length datasetB)
                 + pausesOf env (length datasetA))
                (RATE_LIMIT_DELAY env) /\
    reportFile w' =
      Some (ComparisonReport.make (Date_toISOString env) (length datasetA)
              (summaryOf env <$> comparisons)).
Proof.
  intros Hb HrA HrB HA HB HC HtA HtB HtD.
  exact (compareDatasets_runs_world env tm w datasetA datasetB embeddedA
           embeddedB comparisons Hb HrA HrB HA HB HC HtA HtB HtD).
Qed.

Lemma run_accounting_witness :
  exists w',
    compareDatasets runChatDown reversed emptyWorld = Some (w', Return tt) /\
    EmbeddingRequest.input <$> embeddingRequests w' =
      createTextRepresentation <$>
        [profile 1 "A"; profile 5 "E"; profile 2 "B"; profile 4 "D"] /\
    length (chatRequests w') = 1 /\
    timers w' = [].
Proof.
  pose (embeddedA := valuesOf (embedOutcome runChatDown <$>
                                 [profile 1 "A"; profile 5 "E"])).
  pose (embeddedB := valuesOf (embedOutcome runChatDown <$>
                                 [profile 2 "B"; profile 4 "D"])).
  pose (comparisons :=
          valueOr [] (mapC (compareEntry runChatDown embeddedB) embeddedA)).
  destruct (run_accounting runChatDown reversed emptyWorld
              [profile 1 "A"; profile 5 "E"] [profile 2 "B"; profile 4 "D"]
              embeddedA embeddedB comparisons)
    as (w' & Hrun & Hemb & Hchat & _ & Htimers & _).
  - simpl. lia.
  - reflexivity.
  - reflexivity.
  - vm_compute. reflexivity.
  - vm_compute. reflexivity.
  - vm_compute. reflexivity.
  - vm_compute. reflexivity.
  - vm_compute. reflexivity.
  - vm_compute. reflexivity.
  - exists w'. split; [exact Hrun|].
    rewrite Hemb, Hchat, Htimers. repeat split.
Defined.

(** X6: when a dataset cannot be loaded, the run is rejected with the
    error of the load and nothing has happened: no request, no pause, no
    report.  The first dataset is loaded first. *)
Theorem load_failure_aborts env tm w e :
  read_datasetA env = Throw e \/
  (exists datasetA,
     read_datasetA env = Return datasetA /\ read_datasetB env = Throw e) ->
  compareDatasets env tm w = Some (w, Throw e).
Proof.
  unfold compareDatasets, loadDatasets, bind, settled.
  intros [HA|(datasetA & HA & HB)].
  - rewrite HA. reflexivity.
  - rewrite HA, HB. reflexivity.
Qed.

Lemma load_failure_aborts_witness :
  compareDatasets runNoDatasetA reversed emptyWorld =
  Some (emptyWorld,
        Throw (Error "ENOENT: no such file or directory, open 'datasetA.json'")).
Proof.
  apply (load_failure_aborts runNoDatasetA reversed emptyWorld).
  left. reflexivity.
Defined.

Lemma embedding_stage_empty env timing w :
  generateEmbeddingsWithBatching env timing [] w = Some (w, Return []).
Proof. reflexivity. Qed.

(** X7: with an empty target dataset and a source dataset that is not
    empty, the run embeds the source dataset and is then rejected with
    the error "No match found": no completion request is sent and no
    report is written. *)
Theorem empty_target_aborts env tm w datasetA embeddedA :
  0 < BATCH_SIZE env ->
  read_datasetA env = Return datasetA ->
  read_datasetB env = Return [] ->
  datasetA <> [] ->
  embedOutcome env <$> datasetA = Return <$> embeddedA ->
  timingOK env (timingA tm) datasetA = true ->
  exists w',
    compareDatasets env tm w = Some (w', Throw (Error "No match found")) /\
    embeddingRequests w' =
      embeddingRequests w ++ (embeddingRequestOf <$> datasetA) /\
    chatRequests w' = chatRequests w /\
    reportFile w' = reportFile w.
Proof.
  intros Hb HrA HrB Hne HA HtA.
  unfold compareDatasets, loadDatasets, bind, settled, ret.
  rewrite HrA, HrB.
  rewrite (embedding_stage_returns env _ datasetA embeddedA w Hb HtA HA).
  rewrite embedding_stage_empty.
  destruct embeddedA as [|ea embeddedA].
  { destruct datasetA; [congruence|discriminate]. }
  simpl. eexists. split; [reflexivity|].
  destruct (requests_pauses (pausesOf env (length datasetA))
              (RATE_LIMIT_DELAY env) (issueAll embedIssue datasetA w))
    as [-> ->].
  rewrite reportFile_pauses.
  split; [apply embeddingRequests_embed|].
  split; [apply chatRequests_summarizeIssue_embed|].
  apply (issueAll_frame reportFile embedIssue). reflexivity.
Qed.

Lemma empty_target_aborts_witness :
  exists w',
    compareDatasets runEmptyTarget reversed emptyWorld
    = Some (w', Throw (Error "No match found")) /\
    embeddingRequests w' =
      embeddingRequests emptyWorld ++
      (embeddingRequestOf <$> [profile 1 "A"; profile 5 "E"]) /\
    chatRequests w' = chatRequests emptyWorld /\
    reportFile w' = reportFile emptyWorld.
Proof.
  apply (empty_target_aborts runEmptyTarget reversed emptyWorld
           [profile 1 "A"; profile 5 "E"]
           (valuesOf (embedOutcome runEmptyTarget <$>
                        [profile 1 "A"; profile 5 "E"]))).
  - simpl. lia.
  - reflexivity.
  - reflexivity.
  - discriminate.
  - vm_compute. reflexivity.
  - vm_compute. reflexivity.
Defined.

(** X8: with an empty source dataset the run embeds the target dataset
    and writes a report with a count of 0 and no result; it sends no
    completion request and throws nothing, also when the target dataset
    is empty too. *)
Theorem empty_source_gives_empty_report env tm w datasetB embeddedB :
  0 < BATCH_SIZE env ->
  read_datasetA env = Return [] ->
  read_datasetB env = Return datasetB ->
  embedOutcome env <$> datasetB = Return <$> embeddedB ->
  timingOK env (timingB tm) datasetB = true ->
  exists w',
    compareDatasets env tm w = Some (w', Return tt) /\
    reportFile w' = Some (ComparisonReport.make (Date_toISOString env) 0 []) /\
    embeddingRequests w' =
      embeddingRequests w ++ (embeddingRequestOf <$> datasetB) /\
    chatRequests w' = chatRequests w.
Proof.
  intros Hb HrA HrB HB HtB.
  destruct (compareDatasets_runs_world env tm w [] datasetB [] embeddedB []
              Hb HrA HrB eq_refl HB eq_refl eq_refl HtB eq_refl)
    as (w' & Hrun & Hemb & Hchat & _ & _ & Hrep).
  exists w'. split; [exact Hrun|]. split; [exact Hrep|].
  split; [exact Hemb|]. rewrite Hchat. apply app_nil_r.
Qed.

Lemma empty_source_gives_empty_report_witness :
  exists w',
    compareDatasets runEmptySource reversed emptyWorld = Some (w', Return tt) /\
    reportFile w' =
      Some (ComparisonReport.make (Date_toISOString runEmptySource) 0 []) /\
    embeddingRequests w' =
      embeddingRequests emptyWorld ++
      (embeddingRequestOf <$> [profile 2 "B"; profile 4 "D"]) /\
    chatRequests w' = chatRequests emptyWorld.
Proof.
  apply (empty_source_gives_empty_report runEmptySource reversed emptyWorld
           [profile 2 "B"; profile 4 "D"]
           (valuesOf (embedOutcome runEmptySource <$>
                        [profile 2 "B"; profile 4 "D"]))).
  - simpl. lia.
  - reflexivity.
  - reflexivity.
  - vm_compute. reflexivity.
  - vm_compute. reflexivity.
Defined.

(** ** What a written report holds *)

(** A comparison pairs its source entry with a target of greatest
    similarity, and keeps that similarity as its score. *)
Lemma compareEntry_best_inv env embeddedB entryA c :
  compareEntry env embeddedB entryA = Return c ->
  Comparison.entryA c = DatasetEntryWithEmbedding.entry entryA /\
  ((-1) <? Comparison.similarityScore c)%float = true /\
  exists m,
    m ∈ embeddedB /\
    Comparison.match_ c = DatasetEntryWithEmbedding.entry m /\
    Comparison.similarityScore c = similarityTo env entryA m /\
    forall b, b ∈ embeddedB ->
              (Comparison.similarityScore c <? similarityTo env entryA b)%float
              = false.
Proof.
  unfold compareEntry, findBestMatch.
  pose proof (bestSoFar_all env entryA embeddedB) as Hinv.
  destruct (fold_left _ embeddedB _) as [[m|] bs]; [|discriminate].
  simpl. intros H. injection H as <-. simpl. rewrite !fiveFields_plain.
  unfold bestSoFar in Hinv. cbn [fst snd] in Hinv.
  destruct Hinv as (k & Hk & Hs & Hgt & Hmax & _).
  split; [reflexivity|]. split; [exact Hgt|].
  exists m. repeat split; try assumption.
  apply list_elem_of_lookup. eauto.
Qed.

(** X9: in a written report every similarity score is greater than -1
    and is not NaN, and every result whose score is exactly 1 has the
    summary "No differences". *)
Theorem report_scores env tm w w' report :
  compareDatasets env tm w = Some (w', Return tt) ->
  reportFile w' = Some report ->
  Forall (fun r =>
            ((-1) <? ComparisonResult.similarityScore r)%float = true /\
            (ComparisonResult.similarityScore r
             =? ComparisonResult.similarityScore r)%float = true /\
            ((ComparisonResult.similarityScore r =? 1)%float = true ->
             ComparisonResult.diffSummary r = Some "No differences"))
         (ComparisonReport.results report).
Proof.
  intros Hrun Hrep.
  destruct (compareDatasets_inv env tm w w' Hrun)
    as (datasetA & datasetB & embeddedA & embeddedB & comparisons &
        _ & _ & _ & _ & HC & Hrep').
  rewrite Hrep in Hrep'. injection Hrep' as ->. simpl.
  apply mapC_inv in HC. apply Forall_fmap, Forall_forall.
  intros c Hc. apply list_elem_of_lookup in Hc as [i Hi].
  destruct (Forall2_lookup_r _ _ _ _ _ HC Hi) as (ea & _ & Hea).
  apply compareEntry_best_inv in Hea as (_ & Hgt & _).
  simpl. split; [exact Hgt|]. split; [exact (ltb_not_nan _ _ Hgt)|].
  intros Hone. unfold identical. rewrite Hone. reflexivity.
Qed.

Lemma report_scores_witness :
  exists w' report,
    compareDatasets runChatDown reversed emptyWorld = Some (w', Return tt) /\
    reportFile w' = Some report /\
    Forall (fun r =>
              ((-1) <? ComparisonResult.similarityScore r)%float = true /\
              (ComparisonResult.similarityScore r
               =? ComparisonResult.similarityScore r)%float = true /\
              ((ComparisonResult.similarityScore r =? 1)%float = true ->
               ComparisonResult.diffSummary r = Some "No differences"))
           (ComparisonReport.results report).
Proof.
  assert (Hrun : exists w' report,
             compareDatasets runChatDown reversed emptyWorld
             = Some (w', Return tt) /\ reportFile w' = Some report).
  { eexists _, _. split; vm_compute; reflexivity. }
  destruct Hrun as (w' & report & Hrun & Hrep).
  exists w', report. split; [exact Hrun|]. split; [exact Hrep|].
  exact (report_scores runChatDown reversed emptyWorld w' report Hrun Hrep).
Defined.

(** X10: in a written report, result i pairs entry i of the source
    dataset with an entry of the target dataset whose embedding has the
    greatest similarity to the embedding of the source entry: the score
    is that similarity, and the similarity of no target exceeds it. *)
Theorem report_pairs_best_matches env tm w w' report :
  compareDatasets env tm w = Some (w', Return tt) ->
  reportFile w' = Some report ->
  exists datasetA datasetB embeddedA embeddedB,
    read_datasetA env = Return datasetA /\
    read_datasetB env = Return datasetB /\
    embedOutcome env <$> datasetA = Return <$> embeddedA /\
    embedOutcome env <$> datasetB = Return <$> embeddedB /\
    Forall2 (fun source r =>
               ComparisonResult.entryA r = DatasetEntryWithEmbedding.entry source /\
               exists target,
                 target ∈ embeddedB /\
                 ComparisonResult.match_ r
                 = DatasetEntryWithEmbedding.entry target /\
                 ComparisonResult.similarityScore r
                 = similarityTo env source target /\
                 forall b, b ∈ embeddedB ->
                           (ComparisonResult.similarityScore r
                            <? similarityTo env source b)%float = false)
            embeddedA (ComparisonReport.results report).
Proof.
  intros Hrun Hrep.
  destruct (compareDatasets_inv env tm w w' Hrun)
    as (datasetA & datasetB & embeddedA & embeddedB & comparisons &
        HrA & HrB & HA & HB & HC & Hrep').
  rewrite Hrep in Hrep'. injection Hrep' as ->. simpl.
  exists datasetA, datasetB, embeddedA, embeddedB.
  repeat split; try assumption.
  apply mapC_inv in HC. apply Forall2_fmap_r.
  eapply Forall2_impl; [exact HC|].
  intros source c Hc. simpl.
  apply compareEntry_best_inv in Hc as (HcA & _ & m & Hm & HcB & Hs & Hmax).
  split; [exact HcA|]. exists m. auto.
Qed.

Lemma report_pairs_best_matches_witness :
  exists w' report,
    compareDatasets runChatDown reversed emptyWorld = Some (w', Return tt) /\
    reportFile w' = Some report /\
    exists datasetA datasetB embeddedA embeddedB,
      read_datasetA runChatDown = Return datasetA /\
      read_datasetB runChatDown = Return datasetB /\
      embedOutcome runChatDown <$> datasetA = Return <$> embeddedA /\
      embedOutcome runChatDown <$> datasetB = Return <$> embeddedB /\
      Forall2 (fun source r =>
                 ComparisonResult.entryA r
                 = DatasetEntryWithEmbedding.entry source /\
                 exists target,
                   target ∈ embeddedB /\
                   ComparisonResult.match_ r
                   = DatasetEntryWithEmbedding.entry target /\
                   ComparisonResult.similarityScore r
                   = similarityTo runChatDown source target /\
                   forall b, b ∈ embeddedB ->
                             (ComparisonResult.similarityScore r
                              <? similarityTo runChatDown source b)%float
                             = false)
              embeddedA (ComparisonReport.results report).
Proof.
  assert (Hrun : exists w' report,
             compareDatasets runChatDown reversed emptyWorld
             = Some (w', Return tt) /\ reportFile w' = Some report).
  { eexists _, _. split; vm_compute; reflexivity. }
  destruct Hrun as (w' & report & Hrun & Hrep).
  exists w', report. split; [exact Hrun|]. split; [exact Hrep|].
  exact (report_pairs_best_matches runChatDown reversed emptyWorld w' report
           Hrun Hrep).
Defined.

(** X11: [generateDiffSummary] never rejects, whatever the completion
    service does: it sends one request (model "gpt-4.1-mini", one user
    message holding the prompt, at most 200 tokens, temperature 0.3) and
    is fulfilled; with "Error generating diff summary" when the call is
    rejected and also when the response has no choice at all. *)
Theorem generateDiffSummary_never_rejects env entryA entryB w :
  let request :=
    ChatRequest.make "gpt-4.1-mini" [("user", diffPrompt entryA entryB)]
                     200 0.3%float in
  exists summary,
    generateDiffSummary env entryA entryB w
    = Some (logChat request w, Return summary) /\
    ((exists e, chat_completions_create env request = Throw e) \/
     chat_completions_create env request = Return [] ->
     summary = Some errorPlaceholder).
Proof.
  intros request. rewrite generateDiffSummary_spec.
  exists (diffSummaryOf env entryA entryB). split; [reflexivity|].
  unfold diffSummaryOf, chatRequestOf. subst request.
  intros [[e ->]| ->]; reflexivity.
Qed.

(** X12: when the embedding of an entry of the source dataset is the
    first to fail, the run is rejected without a request for any entry of
    the target dataset, without a completion request and without a
    report: the only requests sent are those of the batches of the source
    dataset up to the failing one. *)
Theorem source_failure_spares_target env tm w datasetA datasetB k entry err :
  0 < BATCH_SIZE env ->
  read_datasetA env = Return datasetA ->
  read_datasetB env = Return datasetB ->
  timingOK env (timingA tm) datasetA = true ->
  datasetA !! k = Some entry ->
  embedOutcome env entry = Throw err ->
  (forall j earlier, j < k -> datasetA !! j = Some earlier ->
                     exists r, embedOutcome env earlier = Return r) ->
  exists w' e,
    compareDatasets env tm w = Some (w', Throw e) /\
    embeddingRequests w' =
      embeddingRequests w ++
      (embeddingRequestOf <$>
         take ((k / BATCH_SIZE env + 1) * BATCH_SIZE env) datasetA) /\
    chatRequests w' = chatRequests w /\
    reportFile w' = reportFile w.
Proof.
  intros Hb HrA HrB HtA Hk Herr Hbefore.
  destruct (embedding_stage_first_failure env (timingA tm) datasetA w k entry
              err Hb HtA Hk Herr Hbefore)
    as (w' & e & Hrun & Hreq & _ & Hchat & Hrep).
  exists w', e.
  unfold compareDatasets, loadDatasets, bind, settled, ret.
  rewrite HrA, HrB, Hrun. auto.
Qed.

Lemma source_failure_spares_target_witness :
  exists w' e,
    compareDatasets
      (mkEnv 2 1000 cosine embedByName chatTalks (Return profilesWithX)
             (Return [profile 2 "B"]) "2025-01-01T00:00:00.000Z")
      reversed emptyWorld = Some (w', Throw e) /\
    embeddingRequests w' =
      embeddingRequestOf <$>
        [profile 1 "A"; profile 2 "B"; profile 9 "X"; profile 4 "D"] /\
    chatRequests w' = [] /\
    reportFile w' = None.
Proof.
  exact (source_failure_spares_target
           (mkEnv 2 1000 cosine embedByName chatTalks (Return profilesWithX)
                  (Return [profile 2 "B"]) "2025-01-01T00:00:00.000Z")
           reversed emptyWorld profilesWithX [profile 2 "B"] 2 (profile 9 "X")
           (ServiceError "rate limited")
           ltac:(simpl; lia) eq_refl eq_refl eq_refl eq_refl eq_refl
           ltac:(intros [|[|j]] earlier Hj Hl; [| |lia];
                 injection Hl as <-; eexists; reflexivity)).
Defined.
